(** * opal-bot: named futures, spool, path router and conversation orchestrator

    A shallow embedding of the TypeScript sources of opal-bot
    ([libweb.ts], [lib/opalbot.ts], [multibot/fbbot.ts]) together with the
    properties its design document states about them.

    Conventions.
    - JavaScript strings are modelled as [string]: the strings whose
      UTF-16 code units are all below 256.  [toUpperCase] can leave that
      range, so its result is the list of its code units.
    - A JavaScript value that may be [undefined] is an [option].
    - Objects used as dictionaries and [Map]s are [gmap]s.
    - Asynchronous functions are resumptions: they run up to their next
      [await] and hand back a continuation (type [Async] below). *)

From Stdlib Require Import Ascii.
From stdpp Require Import list gmap strings pretty.

(** ** Named futures ([IVars], imported from [lib/util]) *)

Module IVars.

(** Modelled from the spec: the class [IVars] of [lib/util.ts] is imported
    by [lib/opalbot.ts] but is not among the sources.  A slot is keyed by a
    token; an absent key is the state [unregistered]; the three other
    states are the ones the data model names. *)
Inductive slot (T : Type) : Type :=
| AwaitingValue
| HasValue (v : T)
| Consumed.
Arguments AwaitingValue {T}.
Arguments HasValue {T} v.
Arguments Consumed {T}.

(** What the caller of [get] observes. *)
Inductive get_result (T : Type) : Type :=
| Suspended
| Resumed (v : T).
Arguments Suspended {T}.
Arguments Resumed {T} v.

(** What [put] did: resumed the suspended consumer with [v], or stored
    the value for a future [get]. *)
Inductive put_result (T : Type) : Type :=
| Delivered (v : T)
| Stored.
Arguments Delivered {T} v.
Arguments Stored {T}.

Section registry.
Context {T : Type}.

Abbreviation registry := (gmap string (slot T)).

(** Modelled from the spec: [get(token)] registers the token if absent
    and suspends; if the slot holds a value it resumes at once with it
    and the slot becomes consumed.  For a slot that is awaiting or
    consumed the contract names no value to resume with and no change of
    state: the caller is suspended and the slot is left as it is. *)
Definition get (token : string) (r : registry) : registry * get_result T :=
  match r !! token with
  | None => (<[token := AwaitingValue]> r, Suspended)
  | Some (HasValue v) => (<[token := Consumed]> r, Resumed v)
  | Some AwaitingValue => (r, Suspended)
  | Some Consumed => (r, Suspended)
  end.

(** Modelled from the spec: [has(token)] is a pure existence check. *)
Definition has (token : string) (r : registry) : bool :=
  bool_decide (is_Some (r !! token)).

(** Modelled from the spec: [put(token, value)], if a consumer is
    suspended, resumes it with the value and marks the slot consumed;
    otherwise it stores the value and marks the slot has-value, whatever
    the slot was (unregistered, has-value or consumed). *)
Definition put (token : string) (v : T) (r : registry)
  : registry * put_result T :=
  match r !! token with
  | Some AwaitingValue => (<[token := Consumed]> r, Delivered v)
  | Some (HasValue _) | Some Consumed | None =>
      (<[token := HasValue v]> r, Stored)
  end.


(** A history of calls on one registry, with the log of the values that
    reached a consumer, newest first. *)
Inductive call : Type :=
| Get (token : string)
| Put (token : string) (v : T).

Definition step (st : registry * list (string * T)) (c : call)
  : registry * list (string * T) :=
  match c with
  | Get token =>
      match get token st.1 with
      | (r, Resumed v) => (r, (token, v) :: st.2)
      | (r, Suspended) => (r, st.2)
      end
  | Put token v =>
      match put token v st.1 with
      | (r, Delivered v') => (r, (token, v') :: st.2)
      | (r, _) => (r, st.2)
      end
  end.

Definition run (cs : list call) : registry * list (string * T) :=
  foldl step (∅, []) cs.




End registry.
End IVars.

(** ** Spool ([multibot/basebot], used by [multibot/fbbot.ts]) *)

Module Spool.
Section spool.
Context `{Countable K} {V W : Type}.

(** Modelled from the spec: the class [Spool] of [multibot/basebot.ts]
    is used by [fbbot.ts] but is not among the sources.  The state maps a
    key to the one receiver suspended in [wait]; [W] names that
    receiver. *)
Abbreviation spool := (gmap K W).

(** Modelled from the spec: [wait(key)] suspends the caller [w] until a
    value for [key] arrives. *)
Definition wait (k : K) (w : W) (s : spool) : spool := <[k := w]> s.

Record outcome : Type := Outcome {
  handled : bool;
  resumed : option (W * V);
  after : spool
}.

(** Modelled from the spec: [dispatch(key, value)] does not suspend; it
    resumes the waiter for [key] with [value] and returns [true], or
    returns [false] and drops the value. *)
Definition dispatch (k : K) (v : V) (s : spool) : outcome :=
  match s !! k with
  | Some w => Outcome true (Some (w, v)) (delete k s)
  | None => Outcome false None s
  end.
End spool.
Arguments outcome K {_ _} V W.
End Spool.

(** ** The HTTP request router ([libweb.ts]) *)

Module Libweb.

(** *** JavaScript string primitives *)

Definition in_range (lo hi c : ascii) : bool :=
  (N_of_ascii lo <=? N_of_ascii c)%N && (N_of_ascii c <=? N_of_ascii hi)%N.

Definition upper_char (c : ascii) : bool := in_range "A" "Z" c.
Definition lower_char (c : ascii) : bool := in_range "a" "z" c.
Definition digit_char (c : ascii) : bool := in_range "0" "9" c.

(** The class [\w], and the class [[\w\d]] of the placeholder regex. *)
Definition word_char (c : ascii) : bool :=
  lower_char c || upper_char c || digit_char c || Ascii.eqb c "_".
Definition word_or_digit_char (c : ascii) : bool :=
  word_char c || digit_char c.

(** The UTF-16 code units of a string. *)
Fixpoint code_units (s : string) : list N :=
  match s with
  | EmptyString => []
  | String c s' => N_of_ascii c :: code_units s'
  end.

(** [String.prototype.toUpperCase], by the code units of its result.
    Below 256 the letters [a] to [z], and the letters from 224 to 254
    (247, the division sign, is none), have their capital 32 below them;
    the sharp s, 223, becomes [SS]; the micro sign, 181, and the y with
    diaeresis, 255, have their capitals at 924 and 376, outside the range;
    every other code unit is its own upper case. *)
Definition toUpperCase_char (c : ascii) : list N :=
  let n := N_of_ascii c in
  if lower_char c then [n - 32]%N
  else if (n =? 181)%N then [924%N]
  else if (n =? 223)%N then [83%N; 83%N]
  else if (224 <=? n)%N && (n <=? 254)%N && negb (n =? 247)%N then [n - 32]%N
  else if (n =? 255)%N then [376%N]
  else [n].

Fixpoint toUpperCase (s : string) : list N :=
  match s with
  | EmptyString => []
  | String c s' => toUpperCase_char c ++ toUpperCase s'
  end.

Fixpoint occurs (c : ascii) (s : string) : bool :=
  match s with
  | EmptyString => false
  | String d s' => Ascii.eqb c d || occurs c s'
  end.

(** A string is falsy exactly when it is empty. *)
Definition truthy (s : string) : bool :=
  match s with EmptyString => false | String _ _ => true end.

Definition backslash : ascii := ascii_of_N 92.

(** The character class of [escapeRegExp]: [. * + ? ^ $ { } ( ) | [ ] \]. *)
Definition special_char (c : ascii) : bool := occurs c ".*+?^${}()|[\]".

(** [s.replace(/[.*+?^${}()|[\]\\]/g, '\\$&')]: every special character
    gets a backslash in front. *)
Fixpoint escapeRegExp (s : string) : string :=
  match s with
  | EmptyString => EmptyString
  | String c s' =>
      if special_char c then String backslash (String c (escapeRegExp s'))
      else String c (escapeRegExp s')
  end.

Fixpoint take_while (p : ascii → bool) (s : string) : string :=
  match s with
  | EmptyString => EmptyString
  | String c s' => if p c then String c (take_while p s') else EmptyString
  end.

(** The placeholder regex of the constructor tried at the start of [s]: a
    colon, then the capture group, which is one [\w] and as many [[\w\d]]
    as follow (the star is greedy and nothing comes after it).  The result
    is capture group 1; the whole match is one character longer. *)
Definition placeholder_at (s : string) : option string :=
  match s with
  | String c0 (String c1 rest) =>
      if Ascii.eqb c0 ":" && word_char c1
      then Some (String c1 (take_while word_or_digit_char rest))
      else None
  | _ => None
  end.

(** [pattern.split] on the placeholder regex.  The scan goes left to
    right; [acc] is the text since the last split point, [skip] the number
    of characters of the current match still to step over.  At a position
    where the regex matches, the text so far and the capture group are
    emitted; the text after the last match is emitted at the end, so the
    result alternates literal, name, literal, ..., literal. *)
Fixpoint split_go (s : string) (skip : nat) (acc : string) : list string :=
  match s with
  | EmptyString => [acc]
  | String c s' =>
      match skip with
      | S n => split_go s' n acc
      | O =>
          match placeholder_at s with
          | Some name => acc :: name :: split_go s' (String.length name) ""
          | None => split_go s' 0 (acc +:+ String c "")
          end
      end
  end.

Definition split_placeholders (pattern : string) : list string :=
  split_go pattern 0 "".

(** [s.slice(n)]. *)
Fixpoint string_drop (n : nat) (s : string) : string :=
  match n, s with
  | S n', String _ s' => string_drop n' s'
  | _, _ => s
  end.

(** *** Regular expressions

    [new RegExp(src)] and [exec] for the sources the [Route] constructor
    can produce: [^], then literal characters (a special one behind a
    backslash) and the group of [group_src], then [$].  Any other source
    is outside the model ([None]). *)

Inductive rx_item : Type :=
| RxChar (c : ascii)
| RxNonSlashGroup.

Record RegExp : Type := MkRegExp {
  source : string;
  program : list rx_item
}.

Definition group_src : string := "([^/]*)".

Fixpoint starts_with (p s : string) : bool :=
  match p, s with
  | EmptyString, _ => true
  | String a p', String b s' => Ascii.eqb a b && starts_with p' s'
  | String _ _, EmptyString => false
  end.

Fixpoint parse_items (s : string) (skip : nat) : option (list rx_item) :=
  match s with
  | EmptyString => None
  | String c s' =>
      match skip with
      | S n => parse_items s' n
      | O =>
          if Ascii.eqb c "$" then
            match s' with EmptyString => Some [] | String _ _ => None end
          else if Ascii.eqb c backslash then
            match s' with
            | String d _ =>
                if special_char d then (RxChar d ::.) <$> parse_items s' 1
                else None
            | EmptyString => None
            end
          else if starts_with group_src s then
            (RxNonSlashGroup ::.) <$> parse_items s' 6
          else if special_char c then None
          else (RxChar c ::.) <$> parse_items s' 0
      end
  end.

Definition RegExp_new (src : string) : option RegExp :=
  match src with
  | String c body =>
      if Ascii.eqb c "^" then MkRegExp src <$> parse_items body 0 else None
  | EmptyString => None
  end.

(** The greedy star of a group: take non-slash characters as long as
    there are any, then try the rest of the pattern [k]; while that fails,
    give the characters back one by one. *)
Fixpoint star (k : string → option (list string)) (s : string)
  : option (string * list string) :=
  let stop := pair EmptyString <$> k s in
  match s with
  | String d s' =>
      if Ascii.eqb d "/" then stop
      else match star k s' with
           | Some (cap, caps) => Some (String d cap, caps)
           | None => stop
           end
  | EmptyString => stop
  end.

(** Backtracking match of the items against all of [s] (the pattern ends
    in [$]); the result lists the capture groups in order. *)
Fixpoint rx_match (items : list rx_item) (s : string) {struct items}
  : option (list string) :=
  match items with
  | [] => match s with EmptyString => Some [] | String _ _ => None end
  | RxChar c :: rest =>
      match s with
      | String d s' => if Ascii.eqb c d then rx_match rest s' else None
      | EmptyString => None
      end
  | RxNonSlashGroup :: rest =>
      match star (rx_match rest) s with
      | Some (cap, caps) => Some (cap :: caps)
      | None => None
      end
  end.

(** [regex.exec(input)]: the match array, whole match first, or [null]. *)
Definition RegExp_exec (re : RegExp) (input : string) : option (list string) :=
  (input ::.) <$> rx_match (program re) input.

(** *** Routes *)

(** [http.IncomingMessage]: both fields may be [undefined]. *)
Record Request : Type := MkRequest {
  req_method : option string;
  req_url : option string
}.

(** [http.ServerResponse], as far as the handlers use it. *)
Record Response : Type := MkResponse {
  statusCode : nat;
  body : list string;
  finished : bool
}.

Definition fresh_response : Response := MkResponse 200 [] false.

Definition set_statusCode (code : nat) (res : Response) : Response :=
  MkResponse code (body res) (finished res).

(** [res.end(data)]: sends [data], if any, and finishes the response; a
    finished response takes no more data. *)
Definition Response_end (data : option string) (res : Response) : Response :=
  if finished res then res
  else MkResponse (statusCode res) (body res ++ option_list data) true.

(** [Params]: an object, by its own properties, from names to the
    entries of the match array, which are [undefined] past its end. *)
Abbreviation Params := (gmap string (option string)).

Record Route (H : Type) : Type := MkRoute {
  method : string;
  pattern : list N;
  handler : H;
  paramNames : list string;
  regex : RegExp
}.
Arguments MkRoute {H}.
Arguments method {H}.
Arguments pattern {H}.
Arguments handler {H}.
Arguments paramNames {H}.
Arguments regex {H}.

(** The state of the constructor's loop over the parts of the template. *)
Record build : Type := MkBuild {
  names : list string;
  patternRegex : string;
  isParam : bool
}.

Definition build_step (st : build) (part : string) : build :=
  if isParam st
  then MkBuild (names st ++ [part]) (patternRegex st +:+ group_src)
               (negb (isParam st))
  else MkBuild (names st) (patternRegex st +:+ escapeRegExp part)
               (negb (isParam st)).

Definition build_parts (parts : list string) : build :=
  foldl build_step (MkBuild [] "" false) parts.

(** [new Route(method, pattern, handler)].  The [method] parameter is a
    parameter property and is stored as given; the field [pattern] gets the
    upper-cased template; the regex is compiled from the template as
    given. *)
Definition Route_new {H : Type} (method pattern : string) (handler : H)
  : option (Route H) :=
  let st := build_parts (split_placeholders pattern) in
  MkRoute method (toUpperCase pattern) handler (names st)
    <$> RegExp_new ("^" +:+ patternRegex st +:+ "$").

(** [params[name] = value] on an object made by the literal [{}], for a
    value that is a string or [undefined].  The assignment writes an own
    property, except for the name [__proto__]: that one goes to the setter
    that [Object.prototype] has for it, which ignores a value that is
    neither an object nor [null], and the object is left as it is. *)
Definition assign (name : string) (value : option string) (params : Params)
  : Params :=
  if String.eqb name "__proto__" then params else <[name := value]> params.

(** [paramNames.forEach((name, i) => params[name] = match[i + 1])]. *)
Fixpoint pack_from (i : nat) (names : list string) (mt : list string)
    (params : Params) : Params :=
  match names with
  | [] => params
  | name :: names' =>
      pack_from (S i) names' mt (assign name (mt !! (i + 1)) params)
  end.

Definition pack (names : list string) (mt : list string) : Params :=
  pack_from 0 names mt ∅.

(** [Route.match(req)]. *)
Definition Route_match {H : Type} (r : Route H) (req : Request)
  : option Params :=
  match req_method req, req_url req with
  | Some m, Some url =>
      if truthy m && bool_decide (toUpperCase m = code_units (method r))
         && truthy url
      then match RegExp_exec (regex r) url with
           | Some mt => Some (pack (paramNames r) mt)
           | None => None
           end
      else None
  | _, _ => None
  end.

(** *** The compilation as the design document words it *)

(** A template is a sequence of literal segments and placeholders. *)
Inductive segment : Type :=
| Literal (text : string)
| Placeholder (name : string).

(** The parts of a split alternate, literal first unless [param]. *)
Fixpoint segments_from (param : bool) (parts : list string) : list segment :=
  match parts with
  | [] => []
  | part :: parts' =>
      (if param then Placeholder part else Literal part)
        :: segments_from (negb param) parts'
  end.

Definition segments (pattern : string) : list segment :=
  segments_from false (split_placeholders pattern).

(** A literal segment is regex-escaped, a placeholder becomes a non-slash
    capture group. *)
Definition segment_source (sg : segment) : string :=
  match sg with
  | Literal text => escapeRegExp text
  | Placeholder _ => group_src
  end.

Fixpoint string_concat (l : list string) : string :=
  match l with
  | [] => ""
  | s :: l' => s +:+ string_concat l'
  end.

(** The pattern is anchored start to end. *)
Definition compiled_source (sgs : list segment) : string :=
  "^" +:+ string_concat (segment_source <$> sgs) +:+ "$".

Definition placeholder_names (sgs : list segment) : list string :=
  sgs ≫= λ sg, match sg with Literal _ => [] | Placeholder name => [name] end.

Fixpoint chars (s : string) : list ascii :=
  match s with
  | EmptyString => []
  | String c s' => c :: chars s'
  end.

(** What a segment matches: its own text, character by character, or any
    run of non-slash characters. *)
Definition segment_items (sg : segment) : list rx_item :=
  match sg with
  | Literal text => RxChar <$> chars text
  | Placeholder _ => [RxNonSlashGroup]
  end.

(** The string a pattern matches when its groups capture [caps]. *)
Fixpoint items_text (items : list rx_item) (caps : list string) : string :=
  match items with
  | [] => ""
  | RxChar c :: rest => String c (items_text rest caps)
  | RxNonSlashGroup :: rest =>
      match caps with
      | cap :: caps' => cap +:+ items_text rest caps'
      | [] => items_text rest []
      end
  end.

Fixpoint groups (items : list rx_item) : nat :=
  match items with
  | [] => 0
  | RxChar _ :: rest => groups rest
  | RxNonSlashGroup :: rest => S (groups rest)
  end.

Definition slash_free (s : string) : Prop := occurs "/" s = false.

(** The text of a segment in the template. *)
Definition segment_text (sg : segment) : string :=
  match sg with
  | Literal text => text
  | Placeholder name => ":" +:+ name
  end.

Section dispatch.
(** Handlers act on the response and on whatever state [Σ] their
    closures reach. *)
Context {Σ : Type}.

Definition Handler : Type := Request → Response → Σ → Response * Σ.
Definition RouteHandler : Type :=
  Request → Response → Params → Σ → Response * Σ.

Definition notFoundHandler : Handler := λ req res σ,
  (Response_end (Some "not found") (set_statusCode 404 res), σ).

(** [dispatch(routes, notFound)]: the returned handler. *)
Fixpoint dispatch_with (notFound : Handler) (routes : list (Route RouteHandler))
  : Handler := λ req res σ,
  match routes with
  | [] => notFound req res σ
  | route :: routes' =>
      match Route_match route req with
      | Some params => handler route req res params σ
      | None => dispatch_with notFound routes' req res σ
      end
  end.

(** [notFound] defaults to [notFoundHandler]. *)
Definition dispatch (routes : list (Route RouteHandler))
    (notFound : option Handler) : Handler :=
  dispatch_with (default notFoundHandler notFound) routes.
End dispatch.
Arguments Handler Σ : clear implicits.
Arguments RouteHandler Σ : clear implicits.
End Libweb.

(** ** The bot ([lib/opalbot.ts]) *)

Module Opalbot.
Import Libweb.

(** [Settings]: what a user configures in the web interface.  [service]
    is the string ['caldav'] or ['office'], or is missing. *)
Record CalDAVSettings : Type := MkCalDAV {
  url : option string;
  username : option string;
  password : option string
}.

Record Settings : Type := MkSettings {
  service : option string;
  caldav : option CalDAVSettings;
  officeToken : option string
}.

(** The object literal [{}]. *)
Definition no_settings : Settings := MkSettings None None None.

(** [caldav.Calendar] and [office.Calendar], by their constructor
    arguments. *)
Inductive Calendar : Type :=
| CalDAVCalendar (url username password : option string)
| OfficeCalendar (token : option string).

(** A [Conversation] of a backend: the user it is with. *)
Record Conversation : Type := MkConversation {
  user : string;
  namespace : string
}.

(** Calls on [webSessions] that can change it, oldest first. *)
Inductive SessionCall : Type :=
| CallGet (token : string)
| CallPut (token : string) (settings : Settings).

(** The mutable state of an [OpalBot] and of the services it talks to:
    the named futures of pending settings requests, the [users] collection
    in memory and as last written by [saveDatabase], the messages sent to
    users, whether an Office client is set up (and the tokens waiting for
    its authentication to finish), the calls of [nunjucks.render] made
    (the template and its context), and the number of random strings drawn
    so far. *)
Record World : Type := MkWorld {
  webSessions : gmap string (IVars.slot Settings);
  sessionCalls : list SessionCall;
  users : gmap string Settings;
  saved : gmap string Settings;
  sent : list (string * string);
  officeClient : bool;
  officePending : list string;
  renderPending : list (string * gmap string string);
  randomCalls : nat
}.

Definition set_sessions (r : gmap string (IVars.slot Settings))
    (c : SessionCall) (w : World) : World :=
  MkWorld r (sessionCalls w ++ [c]) (users w) (saved w) (sent w)
          (officeClient w) (officePending w) (renderPending w) (randomCalls w).

Definition set_users (u : gmap string Settings) (w : World) : World :=
  MkWorld (webSessions w) (sessionCalls w) u (saved w) (sent w)
          (officeClient w) (officePending w) (renderPending w) (randomCalls w).

Definition set_saved (u : gmap string Settings) (w : World) : World :=
  MkWorld (webSessions w) (sessionCalls w) (users w) u (sent w)
          (officeClient w) (officePending w) (renderPending w) (randomCalls w).

Definition set_sent (l : list (string * string)) (w : World) : World :=
  MkWorld (webSessions w) (sessionCalls w) (users w) (saved w) l
          (officeClient w) (officePending w) (renderPending w) (randomCalls w).

Definition set_officePending (l : list string) (w : World) : World :=
  MkWorld (webSessions w) (sessionCalls w) (users w) (saved w) (sent w)
          (officeClient w) l (renderPending w) (randomCalls w).

Definition set_renderPending (l : list (string * gmap string string))
    (w : World) : World :=
  MkWorld (webSessions w) (sessionCalls w) (users w) (saved w) (sent w)
          (officeClient w) (officePending w) l (randomCalls w).

Definition set_randomCalls (n : nat) (w : World) : World :=
  MkWorld (webSessions w) (sessionCalls w) (users w) (saved w) (sent w)
          (officeClient w) (officePending w) (renderPending w) n.

(** What the bot is given and what it imports from modules that are not
    among the sources: the NLP result type with the two accessors of
    [lib/wit] ([getEntity] by the truthiness of its result, [entityValue]
    by the string it returns, if any), [randomString] of [lib/util] as the
    sequence of strings it returns, and the constructor argument
    [webURL]. *)
Class Collaborators : Type := {
  WitResult : Type;
  getEntity : WitResult → string → bool;
  entityValue : WitResult → string → option string;
  randomString : nat → string;
  webURL : string
}.

Section bot.
Context `{Collaborators}.

(** The operations an [async] function awaits, with the type of what
    the [await] evaluates to. *)
Inductive Event : Type → Type :=
| WitMessage (text : string) : Event WitResult
| SessionGet (token : string) : Event Settings
| FormData (req : Request) : Event (gmap string string)
| OfficeAuthenticate : Event string
| GetEvents (cal : Calendar) : Event (list (string * string)).

(** An [async] function run on state [S]: it has returned, has thrown,
    or is suspended in an [await] with the state it left behind; the
    continuation takes the awaited value and the state found at
    resumption.  The continuation is for a promise that is fulfilled: what
    a function does when an awaited promise is rejected is not modelled
    (none of the functions below catches an exception). *)
Inductive Async (S A : Type) : Type :=
| Ret (s : S) (a : A)
| Throw (s : S) (err : string)
| Await {X : Type} (e : Event X) (s : S) (k : X → S → Async S A).
Arguments Ret {S A}.
Arguments Throw {S A}.
Arguments Await {S A X}.

Fixpoint bind {S A B : Type} (m : Async S A) (f : A → S → Async S B)
  : Async S B :=
  match m with
  | Ret s a => f a s
  | Throw s err => Throw s err
  | Await e s k => Await e s (λ x s', bind (k x s') f)
  end.

(** The state at the point where the function first gives up control. *)
Definition first_state {S A : Type} (m : Async S A) : S :=
  match m with
  | Ret s _ | Throw s _ | Await _ s _ => s
  end.

(** *** [webSessions] *)

Definition session_get (token : string) (w : World)
  : IVars.get_result Settings * World :=
  let '(r, out) := IVars.get token (webSessions w) in
  (out, set_sessions r (CallGet token) w).

Definition session_put (token : string) (settings : Settings) (w : World)
  : World :=
  set_sessions (IVars.put token settings (webSessions w)).1
               (CallPut token settings) w.

(** *** The settings route *)

(** The callback given to [auth.token.then]: it runs when the Office
    authentication of [token] finishes with [t]. *)
Definition officeTokenArrived (token : string) (t : string) (w : World)
  : World :=
  session_put token (MkSettings (Some "office") None (Some t)) w.

(** [nunjucks.render(name, ctx, callback)] as the handler sees it: the
    call is made and the handler goes on; the callback runs when
    [nunjucks] calls it. *)
Definition render (name : string) (ctx : gmap string string) (w : World)
  : World :=
  set_renderPending (renderPending w ++ [(name, ctx)]) w.


(** The reply to a request whose token names no slot. *)
Definition invalid_token (res : Response) (w : World)
  : Async (Response * World) unit :=
  Ret (Response_end (Some "invalid token") (set_statusCode 404 res), w) tt.

(** The handler that [settingsRoute()] gives to the route
    [/settings/:token].  [params['token']] is the entry of the object,
    [undefined] if there is none, and no slot has the key [undefined].
    [libweb.notFound] is the default not-found handler of the router. *)
Definition settingsHandler (req : Request) (res : Response)
    (params : Params) (w : World) : Async (Response * World) unit :=
  match mjoin (params !! "token") with
  | None => invalid_token res w
  | Some token =>
      if negb (IVars.has token (webSessions w)) then invalid_token res w
      else if bool_decide (req_method req = Some "GET") then
        if officeClient w then
          Await OfficeAuthenticate (res, w) (λ auth_url '(res, w),
            let ctx : gmap string string :=
              {["officeAuthURL" := auth_url]} in
            let w := set_officePending (officePending w ++ [token]) w in
            Ret (res, render "settings.html" ctx w) tt)
        else
          Ret (res, render "settings.html" ∅ w) tt
      else if bool_decide (req_method req = Some "POST") then
        Await (FormData req) (res, w) (λ data '(res, w),
          if bool_decide (data !! "service" = Some "caldav") then
            let settings :=
              MkSettings (Some "caldav")
                (Some (MkCalDAV (data !! "url") (data !! "username")
                                (data !! "password")))
                None in
            let w := session_put token settings w in
            Ret (Response_end (Some "got it; thanks!") res, w) tt
          else
            Ret (Response_end
                   (Some "sorry; I did not understand the form") res, w) tt)
      else
        Ret (notFoundHandler req res w) tt
  end.

(** *** Users *)

Definition saveDatabase (w : World) : World := set_saved (users w) w.

(** [getUser(conv)]: the stored settings of the user, after creating
    and saving an empty record if there was none. *)
Definition getUser (conv : Conversation) (w : World) : Settings * World :=
  match users w !! user conv with
  | Some settings => (settings, w)
  | None =>
      (no_settings,
       saveDatabase (set_users (<[user conv := no_settings]> (users w)) w))
  end.

(** [user.settings = settings; this.users.update(user)]: [user] is the
    record in the collection. *)
Definition update_user (conv : Conversation) (settings : Settings)
    (w : World) : World :=
  set_users (<[user conv := settings]> (users w)) w.

(** *** Conversations *)

Definition send (conv : Conversation) (text : string) (w : World) : World :=
  set_sent (sent w ++ [(user conv, text)]) w.

Definition settings_url (token : string) : string :=
  "please fill out the form at " +:+ webURL +:+ "/settings/" +:+ token.

(** [gatherSettings(conv)]. *)
Definition gatherSettings (conv : Conversation) (w : World)
  : Async World Settings :=
  let token := randomString (randomCalls w) in
  let w := set_randomCalls (S (randomCalls w)) w in
  let w := send conv (settings_url token) w in
  match session_get token w with
  | (IVars.Resumed settings, w) => Ret w settings
  | (IVars.Suspended, w) =>
      Await (SessionGet token) w (λ settings w', Ret w' settings)
  end.

(** The truthiness of [user.settings.service]. *)
Definition configured (settings : Settings) : bool :=
  match service settings with
  | Some s => truthy s
  | None => false
  end.

(** The second half of [getCalendar]: the calendar of the service. *)
Definition calendar_of (settings : Settings) (w : World)
  : Async World (option Calendar) :=
  if bool_decide (service settings = Some "caldav") then
    match caldav settings with
    | Some cd => Ret w (Some (CalDAVCalendar (url cd) (username cd)
                                             (password cd)))
    | None => Throw w "TypeError"
    end
  else if bool_decide (service settings = Some "office") then
    Ret w (Some (OfficeCalendar (officeToken settings)))
  else
    Ret w None.

(** [getCalendar(conv, force)]. *)
Definition getCalendar (conv : Conversation) (force : bool) (w : World)
  : Async World (option Calendar) :=
  let '(stored, w) := getUser conv w in
  if force || negb (configured stored) then
    bind (gatherSettings conv w) (λ settings w,
      let w := update_user conv settings w in
      let w := saveDatabase w in
      calendar_of settings w)
  else
    calendar_of stored w.

Definition newline : string := String (ascii_of_nat 10) "".

Fixpoint join (sep : string) (l : list string) : string :=
  match l with
  | [] => ""
  | [x] => x
  | x :: l' => x +:+ sep +:+ join sep l'
  end.

(** [getSomeEvents(cal)]; an event is its formatted start and title. *)
Definition getSomeEvents (cal : Calendar) (w : World) : Async World string :=
  Await (GetEvents cal) w (λ events w',
    Ret w' (join newline ((λ ev, ev.1 +:+ ": " +:+ ev.2) <$> events))).

Definition handle_greeting (conv : Conversation) (w : World)
  : Async World unit :=
  Ret (send conv "hi!" w) tt.

Definition handle_bye (conv : Conversation) (w : World)
  : Async World unit :=
  Ret (send conv ":wave: I'll be right here" w) tt.

Definition handle_thanks (conv : Conversation) (w : World)
  : Async World unit :=
  Ret (send conv "nbd yo" w) tt.

Definition handle_show_calendar (conv : Conversation) (w : World)
  : Async World unit :=
  let w := send conv "let's get your calendar!" w in
  bind (getCalendar conv false w) (λ calendar w,
    match calendar with
    | Some cal =>
        bind (getSomeEvents cal w) (λ text w, Ret (send conv text w) tt)
    | None => Ret w tt
    end).

Definition handle_schedule_meeting (conv : Conversation) (w : World)
  : Async World unit :=
  Ret (send conv ("let's get to schedulin'! " +:+
                  "[actually this is not quite implemented yet]") w) tt.

Definition handle_setup_calendar (conv : Conversation) (w : World)
  : Async World unit :=
  bind (getCalendar conv true w) (λ _ w,
    Ret (send conv "ok, all set!" w) tt).

Definition handle_help (conv : Conversation) (w : World)
  : Async World unit :=
  Ret (send conv "I can schedule a meeting or show your calendar" w) tt.

Definition handle_default (conv : Conversation) (w : World)
  : Async World unit :=
  Ret (send conv ":confused: :grey_question:" w) tt.

(** [interact(text, conv)]. *)
Definition interact (text : string) (conv : Conversation) (w : World)
  : Async World unit :=
  Await (WitMessage text) w (λ res w,
    if getEntity res "greetings" then handle_greeting conv w
    else if getEntity res "bye" then handle_bye conv w
    else if getEntity res "thanks" then handle_thanks conv w
    else
      let intent := entityValue res "intent" in
      if bool_decide (intent = Some "show_calendar") then
        handle_show_calendar conv w
      else if bool_decide (intent = Some "schedule_meeting") then
        handle_schedule_meeting conv w
      else if bool_decide (intent = Some "setup_calendar") then
        handle_setup_calendar conv w
      else if bool_decide (intent = Some "help") then
        handle_help conv w
      else
        handle_default conv w).

(** *** The dispatch policy as the design document words it *)

Inductive IntentHandler : Type :=
| Greeting | Bye | Thanks
| ShowCalendar | ScheduleMeeting | SetupCalendar | Help
| Unrecognized.

(** The special entities, in order of precedence. *)
Definition special_entities : list (string * IntentHandler) :=
  [("greetings", Greeting); ("bye", Bye); ("thanks", Thanks)].

(** The fixed handler set, by intent. *)
Definition intent_handlers : gmap string IntentHandler :=
  {[ "show_calendar" := ShowCalendar;
     "schedule_meeting" := ScheduleMeeting;
     "setup_calendar" := SetupCalendar;
     "help" := Help ]}.

Definition policy_handler (res : WitResult) : IntentHandler :=
  match find (λ p, getEntity res p.1) special_entities with
  | Some (_, h) => h
  | None =>
      default Unrecognized (entityValue res "intent" ≫= (intent_handlers !!.))
  end.

Definition run_handler (h : IntentHandler) (conv : Conversation)
    (w : World) : Async World unit :=
  match h with
  | Greeting => handle_greeting conv w
  | Bye => handle_bye conv w
  | Thanks => handle_thanks conv w
  | ShowCalendar => handle_show_calendar conv w
  | ScheduleMeeting => handle_schedule_meeting conv w
  | SetupCalendar => handle_setup_calendar conv w
  | Help => handle_help conv w
  | Unrecognized => handle_default conv w
  end.
End bot.
Arguments Ret {_ S A}.
Arguments Throw {_ S A}.
Arguments Await {_ S A X}.

(** Stand-ins for the collaborators, to run the bot on examples: the NLP
    result is the map of its entity values, the n-th random string is
    [token-n]. *)
Definition test_collaborators : Collaborators := {|
  WitResult := gmap string string;
  getEntity res name := bool_decide (is_Some (res !! name));
  entityValue res name := res !! name;
  randomString n := "token-" +:+ pretty n;
  webURL := "http://localhost:5000"
|}.

Definition empty_world : World := MkWorld ∅ [] ∅ ∅ [] false [] [] 0.
End Opalbot.

(** ** More of the router: what the claims leave unsaid *)

Module LibwebAux.
Import Libweb.

(** Reading an escaped text back: a backslash stands for the character
    behind it. *)
Fixpoint unescape (s : string) : string :=
  match s with
  | EmptyString => EmptyString
  | String c s' =>
      if Ascii.eqb c backslash then
        match s' with
        | String d s'' => String d (unescape s'')
        | EmptyString => EmptyString
        end
      else String c (unescape s')
  end.

Fixpoint has_special (s : string) : bool :=
  match s with
  | EmptyString => false
  | String c s' => special_char c || has_special s'
  end.

Fixpoint count_special (s : string) : nat :=
  match s with
  | EmptyString => 0
  | String c s' => (if special_char c then 1 else 0) + count_special s'
  end.

Fixpoint all_chars (p : ascii → bool) (s : string) : bool :=
  match s with
  | EmptyString => true
  | String c s' => p c && all_chars p s'
  end.

(** What the placeholder regex captures: a word character followed by
    word characters and digits. *)
Definition identifier (s : string) : bool :=
  match s with
  | EmptyString => false
  | String c s' => word_char c && all_chars word_or_digit_char s'
  end.

(** The template with captures in place of its placeholders. *)
Fixpoint fill (sgs : list segment) (caps : list string) : string :=
  match sgs with
  | [] => ""
  | Literal text :: sgs' => text +:+ fill sgs' caps
  | Placeholder _ :: sgs' =>
      match caps with
      | cap :: caps' => cap +:+ fill sgs' caps'
      | [] => fill sgs' []
      end
  end.
End LibwebAux.

(** ** Footprints of asynchronous functions *)

Module OpalbotAux.
Import Libweb Opalbot.

Section footprints.
Context `{Collaborators}.

(** A stretch of an [async] function runs from its call, or from a
    resumption, to its next [await], [return] or [throw].  [stepwise R s0 m]
    says that [R] relates the state each stretch of [m] starts in to the
    state it ends in, [s0] being the state at the call. *)
Fixpoint stepwise {S A : Type} (R : S → S → Prop) (s0 : S) (m : Async S A)
  : Prop :=
  match m with
  | Ret s _ | Throw s _ => R s0 s
  | Await _ s k => R s0 s ∧ ∀ x s', stepwise R s' (k x s')
  end.


(** [Q] holds of the awaited operation and the state left behind whenever
    [m] suspends. *)
Fixpoint on_await {S A : Type} (Q : ∀ X, Event X → S → Prop) (m : Async S A)
  : Prop :=
  match m with
  | Ret _ _ | Throw _ _ => True
  | Await e s k => Q _ e s ∧ ∀ x s', on_await Q (k x s')
  end.

(** A relation on the bot's state that every primitive step of a
    conversation with [conv] respects. *)
Record Footprint (conv : Conversation) (R : World → World → Prop) : Prop := {
  fp_refl : ∀ w, R w w;
  fp_trans : ∀ w1 w2 w3, R w1 w2 → R w2 w3 → R w1 w3;
  fp_send : ∀ text w, R w (send conv text w);
  fp_getUser : ∀ w, R w (getUser conv w).2;
  fp_random : ∀ w, R w (set_randomCalls (S (randomCalls w)) w);
  fp_get : ∀ token w, R w (session_get token w).2;
  fp_store : ∀ settings w, R w (saveDatabase (update_user conv settings w))
}.

Definition is_get (c : SessionCall) : Prop :=
  match c with CallGet _ => True | CallPut _ _ => False end.

(** The footprints proved below. *)
Definition sends_to (conv : Conversation) (w w' : World) : Prop :=
  ∃ l, sent w' = sent w ++ l ∧ Forall (λ msg, msg.1 = user conv) l.

Definition keeps_saved (conv : Conversation) (w w' : World) : Prop :=
  (saved w = users w → saved w' = users w') ∧
  ∀ u, u ≠ user conv → users w' !! u = users w !! u.

Definition only_gets (w w' : World) : Prop :=
  ∃ l, sessionCalls w' = sessionCalls w ++ l ∧ Forall is_get l.

(** What the settings handler may change: nothing but the response, the
    lists of pending Office tokens and of calls of [nunjucks.render] and,
    by one [put] on its token, the registry. *)
Definition settings_footprint (token : option string)
    (s s' : Response * World) : Prop :=
  users s'.2 = users s.2 ∧ saved s'.2 = saved s.2 ∧ sent s'.2 = sent s.2 ∧
  randomCalls s'.2 = randomCalls s.2 ∧ officeClient s'.2 = officeClient s.2 ∧
  ((webSessions s'.2 = webSessions s.2 ∧ sessionCalls s'.2 = sessionCalls s.2) ∨
   ∃ tok settings,
     token = Some tok ∧ service settings = Some "caldav" ∧
     is_Some (caldav settings) ∧
     webSessions s'.2 = (IVars.put tok settings (webSessions s.2)).1 ∧
     sessionCalls s'.2 = sessionCalls s.2 ++ [CallPut tok settings]).

(** What a conversation with [conv] has done when it waits for a token:
    the registry knows the token, and the last message to the user is the
    URL with it. *)
Definition announced (conv : Conversation) (X : Type) (e : Event X)
    (w : World) : Prop :=
  match e with
  | SessionGet token =>
      IVars.has token (webSessions w) = true ∧
      last (sent w) = Some (user conv, settings_url token)
  | _ => True
  end.

(** The settings a form with [service] ['caldav'] is turned into. *)
Definition form_settings (data : gmap string string) : Settings :=
  MkSettings (Some "caldav")
    (Some (MkCalDAV (data !! "url") (data !! "username") (data !! "password")))
    None.
End footprints.

(** A conversation and a form to run the bot on. *)
Definition test_conv : Conversation := MkConversation "U1" "slack".

Definition test_form : gmap string string :=
  {["service" := "caldav"; "url" := "https://dav.example"; "username" := "u";
    "password" := "p"]}.
End OpalbotAux.

(** ** The Facebook Messenger backend ([multibot/fbbot.ts]) *)

Module Fbbot.

(** The [Message] of a Messenger event. *)
Record Message : Type := MkMessage {
  mid : string;
  seq : nat;
  text : string
}.

Section bot.
(** [W] names a suspended [recv]. *)
Context {W : Type}.

(** A [FacebookBot]: whether a conversation handler is registered, the
    spool of suspended [recv]s by user, and the messages sent through
    [msgr.sendMessage], oldest first. *)
Record FacebookBot : Type := MkFacebookBot {
  convHandler : bool;
  spool : gmap string W;
  outbox : list (string * string)
}.

(** What handling an incoming message leads to: a suspended [recv]
    returns the text, the conversation handler is called with the text and
    a new [Conversation] with the sender, or nothing happens. *)
Inductive Fate : Type :=
| Resumes (w : W) (text : string)
| Starts (text : string) (user : string)
| Dropped.

(** [onConverse(cbk)]. *)
Definition onConverse (bot : FacebookBot) : FacebookBot :=
  MkFacebookBot true (spool bot) (outbox bot).

(** [Conversation.send(text)] of the conversation with [user]. *)
Definition send (user : string) (text : string) (bot : FacebookBot)
  : FacebookBot :=
  MkFacebookBot (convHandler bot) (spool bot) (outbox bot ++ [(user, text)]).

(** [Conversation.recv()] of the conversation with [user], up to its
    [await]: the caller [w] waits in the spool. *)
Definition recv (user : string) (w : W) (bot : FacebookBot) : FacebookBot :=
  MkFacebookBot (convHandler bot) (Spool.wait user w (spool bot)) (outbox bot).

(** The listener for ['message'] events that the constructor installs. *)
Definition on_message (sender : string) (message : Message)
    (bot : FacebookBot) : FacebookBot * Fate :=
  let out := Spool.dispatch sender message (spool bot) in
  let bot' := MkFacebookBot (convHandler bot) (Spool.after out) (outbox bot) in
  match Spool.resumed out with
  | Some (w, msg) => (bot', Resumes w (text msg))
  | None =>
      if negb (Spool.handled out) && convHandler bot
      then (bot', Starts (text message) sender)
      else (bot', Dropped)
  end.

(** Messages handled one after the other, with what became of each. *)
Fixpoint on_messages (msgs : list (string * Message)) (bot : FacebookBot)
  : FacebookBot * list Fate :=
  match msgs with
  | [] => (bot, [])
  | (sender, message) :: msgs' =>
      let '(bot1, fate) := on_message sender message bot in
      let '(bot2, fates) := on_messages msgs' bot1 in
      (bot2, fate :: fates)
  end.

(** What becomes of a message whose sender has no suspended [recv]. *)
Definition unawaited (handler : bool) (m : string * Message) : Fate :=
  if handler then Starts (text m.2) m.1 else Dropped.
End bot.
Arguments FacebookBot W : clear implicits.
Arguments Fate W : clear implicits.
End Fbbot.

(** ** The entry point ([main]) *)

Module Main.
Import Libweb.

Definition STATUS_CHAN : string := "bot-status".
Definition DB_NAME : string := "store.json".

(** The command-line flags, as [minimist] hands them over. *)
Record Options : Type := MkOptions {
  opt_term : bool;
  opt_fb : bool;
  opt_slack : bool;
  opt_web : bool
}.

(** What [main] does to the outside, in order. *)
Inductive Action : Type :=
| ConsoleError (msg : string)
| OpenDB (filename : string)
| NewOpalBot (wit_token web_url : string)
| AddOffice (id secret : string)
| ConnectSlack (token chan : string)
| AddFacebook (page_token verify_token : string)
| AddWeb
| RunWeb (port : nat)
| RunTerminal.

(** [process.env[name]] where the code tests it for truthiness: a
    variable that is unset or empty counts as missing. *)
Definition getenv (env : gmap string string) (name : string) : option string :=
  match env !! name with
  | Some value => if truthy value then Some value else None
  | None => None
  end.

Definition office_step (env : gmap string string) : list Action :=
  match getenv env "OFFICE_CLIENT_ID", getenv env "OFFICE_CLIENT_SECRET" with
  | Some id, Some secret => [AddOffice id secret]
  | _, _ => []
  end.

Definition slack_step (env : gmap string string) (opts : Options)
  : list Action :=
  if opt_slack opts then
    match getenv env "SLACK_BOT_TOKEN" with
    | Some token => [ConnectSlack token STATUS_CHAN]
    | None => [ConsoleError "missing SLACK_BOT_TOKEN"]
    end
  else [].

Definition fb_step (env : gmap string string) (opts : Options) : list Action :=
  if opt_fb opts then
    match getenv env "FB_PAGE_TOKEN", getenv env "FB_VERIFY_TOKEN" with
    | Some page, Some verify => [AddFacebook page verify]
    | _, _ => [ConsoleError "missing FB_PAGE_TOKEN or FB_VERIFY_TOKEN"]
    end
  else [].

Definition web_step (opts : Options) : list Action :=
  if opt_web opts then [AddWeb] else [].

Definition term_step (opts : Options) : list Action :=
  if opt_term opts then [RunTerminal] else [].

(** [main()]. *)
Definition main (env : gmap string string) (opts : Options) : list Action :=
  match getenv env "WIT_ACCESS_TOKEN" with
  | None => [ConsoleError "missing WIT_TOKEN"]
  | Some wit_token =>
      let web_url := default "http://localhost:5000" (getenv env "WEB_URL") in
      [OpenDB DB_NAME; NewOpalBot wit_token web_url]
        ++ office_step env ++ slack_step env opts ++ fb_step env opts
        ++ web_step opts ++ [RunWeb 5000] ++ term_step opts
  end.

(** The actions that reach the outside world beyond the console. *)
Definition starts_something (a : Action) : Prop :=
  match a with ConsoleError _ => False | _ => True end.
End Main.

(** ** The first Slack bot (the earlier [index.ts]) *)

Module Slackbot0.
Import Libweb Opalbot.

(** A Slack [Message]. *)
Record Message : Type := MkMessage {
  user : string;
  text : string;
  channel : string
}.

Section bot.
Context `{Collaborators}.

(** [bot.send(text, channel)]: the state is the list of what was sent. *)
Definition send (text channel : string) (sent : list (string * string))
  : list (string * string) :=
  sent ++ [(text, channel)].

(** The listener for ["message"]: [ims] holds the ids of the direct-message
    channels ([bot.ims.get] finds the others [undefined]). *)
Definition on_message (ims : gset string) (message : Message)
    (sent : list (string * string)) : Async (list (string * string)) unit :=
  if bool_decide (channel message ∈ ims) then
    Await (WitMessage (text message)) sent (λ res sent,
      if getEntity res "greeting" then
        Ret (send "hi!" (channel message) sent) tt
      else
        match entityValue res "intent" with
        | Some intent =>
            if truthy intent
            then Ret (send ("your intent: " +:+ intent) (channel message) sent) tt
            else Ret sent tt
        | None => Ret sent tt
        end)
  else Ret sent tt.
End bot.
End Slackbot0.

(** ** The CalDAV calendar source ([multical/caldav.ts]) *)

Module Caldav.
Import Libweb.

(** *** [base64encode] and [basicauth] *)

(** [new Buffer(s)]: the UTF-8 bytes of the string.  A code unit below 128
    is one byte; one from 128 to 255 is a lead byte [110000xx] and a
    continuation byte [10xxxxxx].  (Bit 0 of an [ascii] is its lowest.) *)
Definition utf8_char (c : ascii) : list ascii :=
  match c with
  | Ascii b0 b1 b2 b3 b4 b5 b6 b7 =>
      if b7 then [Ascii b6 b7 false false false false true true;
                  Ascii b0 b1 b2 b3 b4 b5 false true]
      else [c]
  end.

Fixpoint utf8 (s : string) : list ascii :=
  match s with
  | EmptyString => []
  | String c s' => utf8_char c ++ utf8 s'
  end.

Definition alphabet : string :=
  "ABCDEFGHIJKLMNOPQRSTUVWXYZabcdefghijklmnopqrstuvwxyz0123456789+/".

Definition pad : ascii := "=".

(** The character for a six-bit value. *)
Definition digit64 (i : ascii) : ascii :=
  default pad (String.get (nat_of_ascii i) alphabet).

(** Three bytes as four six-bit values, highest bits first. *)
Definition sextets (a b c : ascii) : ascii * ascii * ascii * ascii :=
  match a, b, c with
  | Ascii a0 a1 a2 a3 a4 a5 a6 a7, Ascii b0 b1 b2 b3 b4 b5 b6 b7,
    Ascii c0 c1 c2 c3 c4 c5 c6 c7 =>
      (Ascii a2 a3 a4 a5 a6 a7 false false,
       Ascii b4 b5 b6 b7 a0 a1 false false,
       Ascii c6 c7 b0 b1 b2 b3 false false,
       Ascii c0 c1 c2 c3 c4 c5 false false)
  end.

(** [buffer.toString('base64')]: three bytes give four characters; one or
    two bytes left over are filled up with zero bits and the output with
    [=]. *)
Fixpoint base64 (bytes : list ascii) : string :=
  match bytes with
  | [] => ""
  | [a] =>
      let '(s1, s2, _, _) := sextets a zero zero in
      String (digit64 s1) (String (digit64 s2) (String pad (String pad "")))
  | [a; b] =>
      let '(s1, s2, s3, _) := sextets a b zero in
      String (digit64 s1)
        (String (digit64 s2) (String (digit64 s3) (String pad "")))
  | a :: b :: c :: rest =>
      let '(s1, s2, s3, s4) := sextets a b c in
      String (digit64 s1)
        (String (digit64 s2)
           (String (digit64 s3) (String (digit64 s4) (base64 rest))))
  end.

(** [base64encode(s)]. *)
Definition base64encode (s : string) : string := base64 (utf8 s).

(** [basicauth(username, password)]. *)
Definition basicauth (username password : string) : string :=
  "Basic " +:+ base64encode (username +:+ ":" +:+ password).

(** *** Reading the header back, as the server does *)

Fixpoint index_in (c : ascii) (s : string) (i : nat) : option nat :=
  match s with
  | EmptyString => None
  | String d s' => if Ascii.eqb c d then Some i else index_in c s' (S i)
  end.

Definition undigit64 (c : ascii) : option ascii :=
  ascii_of_nat <$> index_in c alphabet 0.

Definition unsextets (s1 s2 s3 s4 : ascii) : ascii * ascii * ascii :=
  match s1, s2, s3, s4 with
  | Ascii x0 x1 x2 x3 x4 x5 _ _, Ascii y0 y1 y2 y3 y4 y5 _ _,
    Ascii z0 z1 z2 z3 z4 z5 _ _, Ascii t0 t1 t2 t3 t4 t5 _ _ =>
      (Ascii y4 y5 x0 x1 x2 x3 x4 x5,
       Ascii z2 z3 z4 z5 y0 y1 y2 y3,
       Ascii t0 t1 t2 t3 t4 t5 z0 z1)
  end.

Fixpoint base64_decode (s : string) : option (list ascii) :=
  match s with
  | EmptyString => Some []
  | String c1 (String c2 (String c3 (String c4 rest))) =>
      s1 ← undigit64 c1;
      s2 ← undigit64 c2;
      if Ascii.eqb c4 pad then
        match rest with
        | EmptyString =>
            if Ascii.eqb c3 pad then
              Some [(unsextets s1 s2 zero zero).1.1]
            else
              s3 ← undigit64 c3;
              Some [(unsextets s1 s2 s3 zero).1.1;
                    (unsextets s1 s2 s3 zero).1.2]
        | String _ _ => None
        end
      else
        s3 ← undigit64 c3;
        s4 ← undigit64 c4;
        bytes ← base64_decode rest;
        let '(a, b, c) := unsextets s1 s2 s3 s4 in
        Some (a :: b :: c :: bytes)
  | _ => None
  end.

Fixpoint utf8_decode (bytes : list ascii) : option string :=
  match bytes with
  | [] => Some ""
  | Ascii x0 x1 x2 x3 x4 x5 x6 x7 :: rest =>
      if x7 then
        match rest with
        | Ascii y0 y1 y2 y3 y4 y5 y6 y7 :: rest' =>
            if x6 && negb x5 && negb x4 && negb x3 && negb x2 && x1
               && y7 && negb y6
            then String (Ascii y0 y1 y2 y3 y4 y5 x0 x1) <$> utf8_decode rest'
            else None
        | [] => None
        end
      else String (Ascii x0 x1 x2 x3 x4 x5 x6 x7) <$> utf8_decode rest
  end.

(** The user-id is what comes before the first colon. *)
Fixpoint split_colon (s : string) : option (string * string) :=
  match s with
  | EmptyString => None
  | String c s' =>
      if Ascii.eqb c ":" then Some ("", s')
      else (λ up : string * string, (String c up.1, up.2)) <$> split_colon s'
  end.

Fixpoint strip_prefix (p s : string) : option string :=
  match p, s with
  | EmptyString, _ => Some s
  | String a p', String b s' =>
      if Ascii.eqb a b then strip_prefix p' s' else None
  | String _ _, EmptyString => None
  end.

(** The credentials in a [Basic] authorization header. *)
Definition credentials (header : string) : option (string * string) :=
  encoded ← strip_prefix "Basic " header;
  bytes ← base64_decode encoded;
  text ← utf8_decode bytes;
  split_colon text.

(** *** [parseEvent] and [Calendar.getEvents] *)

(** An [ical.Event], with its times as [toString] gives them. *)
Record ICSEvent : Type := MkICSEvent {
  summary : string;
  startDate : string;
  endDate : string
}.

Section events.
(** [M] stands for [moment.Moment], [moment] for the parser [moment(s)]. *)
Context {M : Type} (moment : string → M).

(** A [calbase.Event]. *)
Record Event : Type := MkEvent {
  title : string;
  start : M;
  end_ : M
}.

Definition dateFromICS (time : string) : M := moment time.

Definition eventFromICS (event : ICSEvent) : Event :=
  MkEvent (summary event) (dateFromICS (startDate event))
          (dateFromICS (endDate event)).

(** [parseEvent(ics)], on the events that [icsutil.getEvents] finds in the
    document: the first one, or the exception. *)
Definition parseEvent (doc : list ICSEvent) : ICSEvent + string :=
  match doc with
  | event :: _ => inl event
  | [] => inr "no event in calendar"
  end.

(** The loop of [getEvents] over the responses. *)
Fixpoint parse_responses (docs : list (list ICSEvent))
  : list ICSEvent + string :=
  match docs with
  | [] => inl []
  | doc :: docs' =>
      match parseEvent doc with
      | inr err => inr err
      | inl event =>
          match parse_responses docs' with
          | inl events => inl (event :: events)
          | inr err => inr err
          end
      end
  end.

(** [Calendar.getEvents(start, end)], from what the server answered:
    [res.ok] and the documents of the [response] elements of the
    multistatus.  A multistatus without a [response] element has no
    property [response] in the parsed document, and the loop over
    [undefined] throws a [TypeError]. *)
Definition getEvents (ok : bool) (docs : list (list ICSEvent))
  : list Event + string :=
  if negb ok then inr "error communicating with CalDAV server"
  else match docs with
       | [] => inr "TypeError"
       | _ :: _ =>
           match parse_responses docs with
           | inl events => inl (eventFromICS <$> events)
           | inr err => inr err
           end
       end.
End events.
Arguments Event M : clear implicits.
End Caldav.

(** * Properties *)

(** ** Named futures *)

Module IVarsProps.
Import IVars.

Section registry.
Context {T : Type}.
Implicit Types (r : gmap string (slot T)) (log : list (string * T)).
Implicit Types (st : gmap string (slot T) * list (string * T)).
Implicit Types (c : @call T) (cs : list (@call T)).











(** C1. On a token nobody has used yet, [put] then [get] resumes the
    consumer with the value at once; [get] then [put] first suspends the
    consumer and the [put] then resumes it with the same value; both
    orders leave the registry in the same state, the slot consumed. *)
Theorem put_get_order_independent (token : string) (v : T) r :
  r !! token = None →
  get token (put token v r).1 = (<[token := Consumed]> r, Resumed v) ∧
  (get token r).2 = Suspended ∧
  put token v (get token r).1 = (<[token := Consumed]> r, Delivered v).
Proof.
  intros Hfresh. unfold get, put. rewrite Hfresh. simpl.
  rewrite !lookup_insert_eq, !insert_insert_eq. done.
Qed.

End registry.

Lemma put_get_order_independent_witness :
  (∅ : gmap string (slot nat)) !! "tok" = None ∧
  get "tok" (put "tok" 7 (∅ : gmap string (slot nat))).1
    = (<["tok" := Consumed]> ∅, Resumed 7) ∧
  (get "tok" (∅ : gmap string (slot nat))).2 = Suspended ∧
  put "tok" 7 (get "tok" (∅ : gmap string (slot nat))).1
    = (<["tok" := Consumed]> ∅, Delivered 7).
Proof.
  split; [reflexivity|].
  apply (put_get_order_independent "tok" 7 ∅). reflexivity.
Defined.


(** Outside that use the contract promises nothing: a [put] on a token
    that has delivered stores its value as any other [put] does, and a
    second consumer then gets a second value. *)
Example put_after_consumption :
  (run [Put "tok" 1; Get "tok"; Put "tok" 2; Get "tok"]).2
  = [("tok", 2); ("tok", 1)].
Proof. reflexivity. Qed.
End IVarsProps.

(** ** Spool *)

Module SpoolProps.
Import Spool.

Section spool.
Context `{Countable K} {V W : Type}.
Implicit Types (s : gmap K W).

(** C3. A [dispatch] for a key with a suspended waiter resumes that
    waiter with exactly the dispatched value, reports handled and leaves
    no waiter for the key; a [dispatch] for a key without a waiter
    reports unhandled, resumes nobody and leaves the spool as it was, so
    the value is not kept: a waiter that arrives later is resumed by the
    next dispatch only, and with that dispatch's value. *)
Theorem dispatch_contract (k : K) (v : V) s :
  (∀ w, s !! k = Some w →
     dispatch k v s = Outcome true (Some (w, v)) (delete k s) ∧
     after (dispatch k v s) !! k = None) ∧
  (s !! k = None →
     dispatch k v s = Outcome false None s ∧
     ∀ (w : W) (v' : V),
       dispatch k v' (wait k w (after (dispatch k v s)))
       = Outcome true (Some (w, v')) s).
Proof.
  unfold dispatch, wait. split.
  - intros w ->. simpl. by rewrite lookup_delete_eq.
  - intros Hs. rewrite Hs. simpl. split; [done|].
    intros w v'. rewrite lookup_insert_eq, delete_insert_eq.
    by rewrite delete_id.
Qed.
End spool.

Lemma dispatch_contract_witness :
  (wait "u1" 4 (∅ : gmap string nat) !! "u1" = Some 4 ∧
   dispatch "u1" "hello" (wait "u1" 4 (∅ : gmap string nat))
     = Outcome true (Some (4, "hello")) (delete "u1" (wait "u1" 4 ∅))) ∧
  ((∅ : gmap string nat) !! "u1" = None ∧
   dispatch "u1" "hello" (∅ : gmap string nat) = Outcome false None ∅).
Proof.
  split.
  - split; [reflexivity|].
    apply (dispatch_contract "u1" "hello" (wait "u1" 4 ∅)). reflexivity.
  - split; [reflexivity|].
    apply (dispatch_contract "u1" "hello" (∅ : gmap string nat)). reflexivity.
Defined.
End SpoolProps.

(** ** The router *)

Module LibwebProps.
Import Libweb.

(** *** Strings *)

Lemma app_nil_l (s : string) : "" +:+ s = s.
Proof. done. Qed.

Lemma app_cons (c : ascii) (s t : string) :
  String c s +:+ t = String c (s +:+ t).
Proof. done. Qed.

Lemma app_nil_r (s : string) : s +:+ "" = s.
Proof.
  induction s as [|c s IH]; [done|]. by rewrite app_cons, IH.
Qed.

Lemma app_assoc (s1 s2 s3 : string) : (s1 +:+ s2) +:+ s3 = s1 +:+ s2 +:+ s3.
Proof.
  induction s1 as [|c s1 IH]; [done|]. by rewrite !app_cons, IH.
Qed.

Lemma string_concat_app (l1 l2 : list string) :
  string_concat (l1 ++ l2) = string_concat l1 +:+ string_concat l2.
Proof.
  induction l1 as [|s l1 IH]; simpl; [done|]. by rewrite IH, app_assoc.
Qed.

(** *** The split *)

Lemma split_go_skip (s : string) (n : nat) (acc : string) :
  n ≤ String.length s →
  split_go s n acc = split_go (string_drop n s) 0 acc.
Proof.
  revert n. induction s as [|c s IH]; intros [|n] Hn; simpl in *;
    [done|lia|done|].
  apply IH. lia.
Qed.

Lemma take_while_drop (p : ascii → bool) (s : string) :
  take_while p s +:+ string_drop (String.length (take_while p s)) s = s.
Proof.
  induction s as [|c s IH]; simpl; [done|].
  destruct (p c); simpl; [by rewrite app_cons, IH|done].
Qed.

Lemma take_while_length (p : ascii → bool) (s : string) :
  String.length (take_while p s) ≤ String.length s.
Proof.
  induction s as [|c s IH]; simpl; [done|]. destruct (p c); simpl; lia.
Qed.

Lemma string_drop_length (n : nat) (s : string) :
  String.length (string_drop n s) ≤ String.length s.
Proof.
  revert n. induction s as [|c s IH]; intros [|n]; simpl; try lia.
  specialize (IH n). lia.
Qed.

Lemma placeholder_at_Some (s name : string) :
  placeholder_at s = Some name →
  ∃ s', s = String ":" s' ∧
        String.length name ≤ String.length s' ∧
        name +:+ string_drop (String.length name) s' = s'.
Proof.
  destruct s as [|c0 [|c1 rest]]; simpl; try done.
  destruct (Ascii.eqb_spec c0 ":") as [->|]; simpl; [|done].
  destruct (word_char c1); [|done]. intros [= <-].
  eexists. split; [done|]. simpl. split.
  - pose proof (take_while_length word_or_digit_char rest). lia.
  - by rewrite app_cons, take_while_drop.
Qed.

Lemma split_go_text (n : nat) (s acc : string) :
  String.length s ≤ n →
  string_concat (segment_text <$> segments_from false (split_go s 0 acc))
  = acc +:+ s.
Proof.
  revert s acc. induction n as [|n IH]; intros s acc Hn.
  - destruct s; simpl in *; [|lia]. by rewrite !app_nil_r.
  - destruct s as [|c s]; [simpl; by rewrite !app_nil_r|].
    cbn [split_go]. destruct (placeholder_at (String c s)) as [name|] eqn:Hp.
    + apply placeholder_at_Some in Hp as (s' & [= -> ->] & Hlen & Hname).
      rewrite split_go_skip by done. cbn [segments_from fmap list_fmap negb
        string_concat segment_text].
      rewrite IH.
      * by rewrite app_nil_l, app_assoc, Hname.
      * pose proof (string_drop_length (String.length name) s').
        simpl in Hn. lia.
    + rewrite IH by (simpl in Hn; lia). by rewrite app_assoc.
Qed.

Lemma segments_text (pattern : string) :
  string_concat (segment_text <$> segments pattern) = pattern.
Proof. apply (split_go_text (String.length pattern)). done. Qed.

(** *** The constructor's loop *)

Lemma build_step_spec (ns : list string) (pr : string) (b : bool)
    (parts : list string) :
  names (foldl build_step (MkBuild ns pr b) parts)
  = ns ++ placeholder_names (segments_from b parts) ∧
  patternRegex (foldl build_step (MkBuild ns pr b) parts)
  = pr +:+ string_concat (segment_source <$> segments_from b parts).
Proof.
  revert ns pr b. induction parts as [|part parts IH]; intros ns pr b; simpl.
  - by rewrite app_nil_r, (right_id_L [] (++)).
  - unfold build_step at 2 4. simpl. destruct b; simpl.
    + destruct (IH (ns ++ [part]) (pr +:+ group_src) false) as [-> ->].
      by rewrite <-(assoc_L (++)), app_assoc.
    + destruct (IH ns (pr +:+ escapeRegExp part) true) as [-> ->].
      by rewrite app_assoc.
Qed.

Lemma build_parts_names (pattern : string) :
  names (build_parts (split_placeholders pattern))
  = placeholder_names (segments pattern).
Proof. apply build_step_spec. Qed.

Lemma build_parts_source (pattern : string) :
  "^" +:+ patternRegex (build_parts (split_placeholders pattern)) +:+ "$"
  = compiled_source (segments pattern).
Proof.
  unfold build_parts.
  by rewrite (proj2 (build_step_spec _ _ _ _)).
Qed.

(** *** Parsing what the constructor wrote *)

Lemma special_char_dollar c : Ascii.eqb c "$" = true → special_char c = true.
Proof. intros ->%Ascii.eqb_eq. done. Qed.

Lemma special_char_backslash c :
  Ascii.eqb c backslash = true → special_char c = true.
Proof. intros ->%Ascii.eqb_eq. done. Qed.

Lemma starts_with_group_special c s :
  starts_with group_src (String c s) = true → special_char c = true.
Proof.
  unfold group_src. cbn [starts_with].
  destruct (Ascii.eqb_spec "(" c) as [<-|]; done.
Qed.

Lemma parse_items_escape (text rest : string) :
  parse_items (escapeRegExp text +:+ rest) 0
  = ((RxChar <$> chars text) ++.) <$> parse_items rest 0.
Proof.
  induction text as [|c text IH]; simpl.
  - rewrite app_nil_l. by destruct (parse_items rest 0).
  - destruct (special_char c) eqn:Hc.
    + rewrite !app_cons. cbn [parse_items]. simpl. rewrite Hc.
      destruct (Ascii.eqb c "$"), (Ascii.eqb c backslash); rewrite IH;
        by destruct (parse_items rest 0).
    + rewrite app_cons. cbn [parse_items].
      destruct (Ascii.eqb c "$") eqn:H1;
        [by rewrite (special_char_dollar c) in Hc|].
      destruct (Ascii.eqb c backslash) eqn:H2;
        [by rewrite (special_char_backslash c) in Hc|].
      destruct (starts_with group_src _) eqn:H3;
        [by rewrite (starts_with_group_special _ _ H3) in Hc|].
      rewrite Hc, IH. by destruct (parse_items rest 0).
Qed.

Lemma parse_items_group (rest : string) :
  parse_items (group_src +:+ rest) 0
  = (RxNonSlashGroup ::.) <$> parse_items rest 0.
Proof.
  unfold group_src. rewrite !app_cons, app_nil_l. cbn [parse_items]. simpl.
  destruct rest; done.
Qed.

Lemma parse_items_segments (sgs : list segment) :
  parse_items (string_concat (segment_source <$> sgs) +:+ "$") 0
  = Some (sgs ≫= segment_items).
Proof.
  induction sgs as [|sg sgs IH]; [done|].
  rewrite fmap_cons, bind_cons. cbn [string_concat].
  rewrite app_assoc. destruct sg as [text|name]; cbn [segment_source].
  - by rewrite parse_items_escape, IH.
  - by rewrite parse_items_group, IH.
Qed.

Lemma RegExp_new_compiled (sgs : list segment) :
  RegExp_new (compiled_source sgs)
  = Some (MkRegExp (compiled_source sgs) (sgs ≫= segment_items)).
Proof.
  unfold compiled_source. rewrite app_cons, app_nil_l.
  unfold RegExp_new. rewrite Ascii.eqb_refl.
  by rewrite parse_items_segments.
Qed.

Lemma Route_new_spec {H : Type} (method pattern : string) (handler : H) :
  Route_new method pattern handler
  = Some (MkRoute method (toUpperCase pattern) handler
            (placeholder_names (segments pattern))
            (MkRegExp (compiled_source (segments pattern))
                      (segments pattern ≫= segment_items))).
Proof.
  unfold Route_new.
  by rewrite build_parts_source, build_parts_names, RegExp_new_compiled.
Qed.

(** *** Matching *)

Lemma star_sound (k : string → option (list string)) (s cap : string)
    (caps : list string) :
  star k s = Some (cap, caps) →
  ∃ rest, s = cap +:+ rest ∧ slash_free cap ∧ k rest = Some caps.
Proof.
  revert cap caps. induction s as [|d s IH]; intros cap caps; cbn [star].
  - destruct (k "") as [caps'|] eqn:Hk; intros [= <- <-]. by exists "".
  - assert (pair "" <$> k (String d s) = Some (cap, caps) →
            ∃ rest, String d s = cap +:+ rest ∧ slash_free cap ∧
                    k rest = Some caps) as Hstop.
    { destruct (k (String d s)) as [caps'|] eqn:Hk; intros [= <- <-].
      by exists (String d s). }
    destruct (Ascii.eqb d "/") eqn:Hd; [done|].
    destruct (star k s) as [[cap' caps']|] eqn:Hs; [|done].
    intros [= <- <-]. destruct (IH _ _ eq_refl) as (rest & -> & Hfree & Hk).
    exists rest. split_and!; [done| |done].
    unfold slash_free in *. cbn [occurs]. rewrite Hfree.
    by rewrite Ascii.eqb_sym, Hd.
Qed.

Lemma rx_match_sound (items : list rx_item) (s : string) (caps : list string) :
  rx_match items s = Some caps →
  length caps = groups items ∧ items_text items caps = s ∧
  Forall slash_free caps.
Proof.
  revert s caps.
  induction items as [|[c|] items IH]; intros s caps; cbn [rx_match].
  - destruct s; intros [= <-]; done.
  - destruct s as [|d s]; [done|].
    destruct (Ascii.eqb_spec c d) as [->|]; [|done].
    intros (? & <- & ?)%IH. done.
  - destruct (star _ s) as [[cap caps']|] eqn:Hs; intros [= <-].
    apply star_sound in Hs as (rest & -> & Hfree & (Hlen & <- & Hall)%IH).
    cbn [length groups items_text]. split_and!; [by f_equal|done|].
    by constructor.
Qed.

Lemma star_complete (k : string → option (list string)) (cap rest : string) :
  slash_free cap → is_Some (k rest) → is_Some (star k (cap +:+ rest)).
Proof.
  intros Hfree [caps Hk]. induction cap as [|d cap IH].
  - rewrite app_nil_l. destruct rest as [|e rest]; cbn [star].
    + rewrite Hk. by eexists.
    + rewrite Hk. destruct (Ascii.eqb e "/"); [by eexists|].
      destruct (star k rest) as [[??]|]; by eexists.
  - rewrite app_cons. cbn [star]. unfold slash_free in Hfree.
    cbn [occurs] in Hfree. apply orb_false_iff in Hfree as [Hd Hfree].
    rewrite Ascii.eqb_sym, Hd. destruct (IH Hfree) as [[??] ->]. by eexists.
Qed.

Lemma rx_match_complete (items : list rx_item) (caps : list string) :
  length caps = groups items → Forall slash_free caps →
  is_Some (rx_match items (items_text items caps)).
Proof.
  revert caps. induction items as [|[c|] items IH]; intros caps Hlen Hall;
    cbn [rx_match items_text groups] in *.
  - by eexists.
  - rewrite Ascii.eqb_refl. by apply IH.
  - destruct caps as [|cap caps]; [done|].
    apply Forall_cons in Hall as [Hfree Hall].
    destruct (star_complete (rx_match items) cap (items_text items caps))
      as [[??] ->]; [done|apply IH; [by injection Hlen|done]|].
    by eexists.
Qed.

(** The compiled pattern matches exactly the strings that are its text
    with slash-free captures in place of the groups. *)
Lemma rx_match_matches (items : list rx_item) (s : string) :
  is_Some (rx_match items s) ↔
  ∃ caps, length caps = groups items ∧ Forall slash_free caps ∧
          items_text items caps = s.
Proof.
  split.
  - intros [caps (? & ? & ?)%rx_match_sound]. by exists caps.
  - intros (caps & Hlen & Hall & <-). by apply rx_match_complete.
Qed.

Lemma groups_literal (l : list ascii) (rest : list rx_item) :
  groups ((RxChar <$> l) ++ rest) = groups rest.
Proof. induction l as [|c l IH]; [done|]. by rewrite fmap_cons. Qed.

Lemma segments_groups (sgs : list segment) :
  groups (sgs ≫= segment_items) = length (placeholder_names sgs).
Proof.
  unfold placeholder_names.
  induction sgs as [|[text|name] sgs IH]; [done| |]; rewrite !bind_cons.
  - cbn [segment_items]. by rewrite groups_literal, IH.
  - cbn [segment_items]. simpl. by rewrite IH.
Qed.

Lemma assign_lookup_ne (n name : string) (v : option string)
    (params : Params) :
  n ≠ name → assign n v params !! name = params !! name.
Proof.
  intros Hne. unfold assign. destruct (String.eqb n "__proto__"); [done|].
  by rewrite lookup_insert_ne.
Qed.

Lemma assign_lookup_proto (n : string) (v : option string) (params : Params) :
  assign n v params !! "__proto__" = params !! "__proto__".
Proof.
  unfold assign. destruct (String.eqb_spec n "__proto__") as [|Hne]; [done|].
  by rewrite lookup_insert_ne.
Qed.

Lemma assign_lookup_eq (name : string) (v : option string) (params : Params) :
  name ≠ "__proto__" → assign name v params !! name = Some v.
Proof.
  intros Hne. unfold assign.
  destruct (String.eqb_spec name "__proto__") as [|_]; [done|].
  by rewrite lookup_insert_eq.
Qed.

Lemma pack_from_notin (names : list string) (i : nat) (mt : list string)
    (params : Params) (name : string) :
  name ∉ names → pack_from i names mt params !! name = params !! name.
Proof.
  revert i params. induction names as [|n names IH]; intros i params Hn;
    cbn [pack_from]; [done|].
  apply not_elem_of_cons in Hn as [Hne Hn].
  by rewrite IH, assign_lookup_ne.
Qed.

Lemma pack_from_proto (names : list string) (i : nat) (mt : list string)
    (params : Params) :
  pack_from i names mt params !! "__proto__" = params !! "__proto__".
Proof.
  revert i params. induction names as [|n names IH]; intros i params;
    cbn [pack_from]; [done|].
  by rewrite IH, assign_lookup_proto.
Qed.

Lemma pack_from_lookup (names : list string) (i j : nat) (mt : list string)
    (params : Params) (name : string) :
  names !! j = Some name → name ∉ drop (S j) names → name ≠ "__proto__" →
  pack_from i names mt params !! name = Some (mt !! (i + j + 1)).
Proof.
  revert i j params. induction names as [|n names IH]; intros i j params;
    [done|].
  destruct j as [|j]; cbn [pack_from].
  - intros [= ->] Hn Hp. simpl in Hn. rewrite drop_0 in Hn.
    rewrite pack_from_notin, assign_lookup_eq by done.
    by rewrite Nat.add_0_r.
  - intros Hj Hn Hp. rewrite (IH (S i) j) by done. do 2 f_equal. lia.
Qed.

Lemma truthy_ne (s : string) : truthy s = true ↔ s ≠ "".
Proof. by destruct s. Qed.

(** What [match] does, condition by condition. *)
Lemma Route_match_Some {H : Type} (r : Route H) (req : Request)
    (params : Params) :
  Route_match r req = Some params ↔
  ∃ m url mt,
    req_method req = Some m ∧ m ≠ "" ∧
    toUpperCase m = code_units (method r) ∧
    req_url req = Some url ∧ url ≠ "" ∧
    RegExp_exec (regex r) url = Some mt ∧ params = pack (paramNames r) mt.
Proof.
  unfold Route_match. split.
  - destruct (req_method req) as [m|]; [|done].
    destruct (req_url req) as [url|]; [|done].
    destruct (truthy m) eqn:Hm; [|done].
    destruct (decide (toUpperCase m = code_units (method r))) as [Hmr|Hmr];
      [rewrite (bool_decide_eq_true_2 _ Hmr)
      |by rewrite (bool_decide_eq_false_2 _ Hmr)].
    destruct (truthy url) eqn:Hu; [|done]. simpl.
    destruct (RegExp_exec _ _) as [mt|] eqn:He; [|done]. intros [= <-].
    exists m, url, mt. by rewrite <-!truthy_ne.
  - intros (m & url & mt & -> & Hm%truthy_ne & Hmr & -> & Hu%truthy_ne
            & -> & ->).
    by rewrite Hm, Hu, (bool_decide_eq_true_2 _ Hmr).
Qed.

(** *** Upper case *)

Fixpoint string_of_units (l : list N) : string :=
  match l with
  | [] => ""
  | n :: l' => String (ascii_of_N n) (string_of_units l')
  end.

Lemma code_units_app (s t : string) :
  code_units (s +:+ t) = code_units s ++ code_units t.
Proof.
  induction s as [|c s IH]; [by rewrite app_nil_l|].
  rewrite app_cons. cbn [code_units]. by rewrite IH.
Qed.

Lemma code_units_lt (s : string) : Forall (λ n, (n < 256)%N) (code_units s).
Proof.
  induction s as [|c s IH]; constructor; [|done].
  apply N_ascii_bounded.
Qed.

Lemma code_units_app_inv (t s : string) (l : list N) :
  code_units s = code_units t ++ l → ∃ s', s = t +:+ s' ∧ l = code_units s'.
Proof.
  revert s. induction t as [|c t IH]; intros s Hs.
  - exists s. by rewrite app_nil_l.
  - destruct s as [|d s]; [done|]. cbn [code_units] in Hs.
    injection Hs as Hc Hs. destruct (IH _ Hs) as (s' & -> & ->).
    exists s'. rewrite app_cons. split; [|done]. f_equal.
    by rewrite <-(ascii_N_embedding c), <-(ascii_N_embedding d), Hc.
Qed.

Lemma toUpperCase_app (s t : string) :
  toUpperCase (s +:+ t) = toUpperCase s ++ toUpperCase t.
Proof.
  induction s as [|c s IH]; [by rewrite app_nil_l|].
  rewrite app_cons. cbn [toUpperCase]. by rewrite IH, (assoc_L (++)).
Qed.

(** The upper case of a code unit is a string in upper case, or one code
    unit outside the range. *)
Lemma toUpperCase_char_cases (c : ascii) :
  (∃ t, toUpperCase_char c = code_units t ∧ toUpperCase t = code_units t) ∨
  (∃ n, toUpperCase_char c = [n] ∧ (256 ≤ n)%N).
Proof.
  destruct c as [[] [] [] [] [] [] [] []];
    match goal with
    | |- (∃ t, toUpperCase_char ?c = _ ∧ _) ∨ _ =>
        first [ left; exists (string_of_units (toUpperCase_char c));
                split; vm_compute; reflexivity
              | right; eexists; split; [vm_compute; reflexivity|];
                vm_compute; discriminate ]
    end.
Qed.

(** A string that is the upper case of some string is its own upper
    case. *)
Lemma toUpperCase_fixed (m s : string) :
  toUpperCase m = code_units s → toUpperCase s = code_units s.
Proof.
  revert s. induction m as [|c m IH]; intros s Hs; cbn [toUpperCase] in Hs.
  - by destruct s.
  - destruct (toUpperCase_char_cases c) as [(t & Hc & Ht)|(n & Hc & Hn)];
      rewrite Hc in Hs.
    + symmetry in Hs. apply code_units_app_inv in Hs as (s' & -> & Hs').
      by rewrite toUpperCase_app, code_units_app, Ht, (IH s').
    + destruct s as [|d s]; [done|]. injection Hs as -> _.
      pose proof (N_ascii_bounded d). lia.
Qed.

(** A route whose method is not in upper case matches no request. *)
Lemma Route_match_not_upper {H : Type} (r : Route H) (req : Request) :
  toUpperCase (method r) ≠ code_units (method r) → Route_match r req = None.
Proof.
  intros Hr. destruct (Route_match r req) as [params|] eqn:Hm; [|done].
  apply Route_match_Some in Hm as (m & _ & _ & _ & _ & Hmr & _).
  destruct Hr. by apply (toUpperCase_fixed m).
Qed.

Lemma Route_match_captures {H : Type} (r : Route H) (req : Request)
    (params : Params) :
  groups (program (regex r)) = length (paramNames r) →
  Route_match r req = Some params →
  ∃ url caps, req_url req = Some url ∧
    RegExp_exec (regex r) url = Some (url :: caps) ∧
    length caps = length (paramNames r) ∧
    Forall slash_free caps ∧
    items_text (program (regex r)) caps = url ∧
    ∀ i name, paramNames r !! i = Some name →
              name ∉ drop (S i) (paramNames r) →
              name ≠ "__proto__" →
              params !! name = Some (caps !! i).
Proof.
  intros Hg (m & url & mt & _ & _ & _ & Hurl & _ & He & ->)%Route_match_Some.
  unfold RegExp_exec in *.
  destruct (rx_match _ url) as [caps|] eqn:Hm; [|done].
  injection He as <-. exists url, caps. rewrite Hm.
  apply rx_match_sound in Hm as (Hlen & Htext & Hall).
  split_and!; [done|done|congruence|done|done|].
  intros i name Hi Hlast Hp. unfold pack.
  rewrite (pack_from_lookup _ 0 i) by done.
  by replace (0 + i + 1) with (S i) by lia.
Qed.

(** X27. A [Route] can be constructed from every template.  The template
    is its literal segments and [:name] placeholders in order; the regex
    source is [^], each literal segment regex-escaped and each placeholder
    as the non-slash group, then [$]; the compiled pattern matches each
    literal segment character by character; the parameter names are the
    placeholder names in order.  When [match] returns a mapping, the URL is
    the pattern with slash-free captures in place of its groups, there is
    one capture per name, and the i-th name, if it is not [__proto__], is
    mapped to the i-th capture (for a name that occurs again later, the
    later one counts).  For the template [/settings/:token] and a request
    for [/settings/abc123] whose method has the route's method as its upper
    case, [match] returns [{token: "abc123"}]. *)
Theorem Route_compiles_and_extracts {H : Type} (method pattern : string)
    (handler : H) :
  ∃ r, Route_new method pattern handler = Some r ∧
    string_concat (segment_text <$> segments pattern) = pattern ∧
    source (regex r) = compiled_source (segments pattern) ∧
    program (regex r) = segments pattern ≫= segment_items ∧
    paramNames r = placeholder_names (segments pattern) ∧
    (∀ req params, Route_match r req = Some params →
       ∃ url caps, req_url req = Some url ∧
         RegExp_exec (regex r) url = Some (url :: caps) ∧
         length caps = length (paramNames r) ∧
         Forall slash_free caps ∧
         items_text (program (regex r)) caps = url ∧
         ∀ i name, paramNames r !! i = Some name →
                   name ∉ drop (S i) (paramNames r) →
                   name ≠ "__proto__" →
                   params !! name = Some (caps !! i)) ∧
    (pattern = "/settings/:token" →
     ∀ m, m ≠ "" → toUpperCase m = code_units method →
       Route_match r (MkRequest (Some m) (Some "/settings/abc123"))
       = Some {["token" := Some "abc123"]}).
Proof.
  eexists. split; [apply Route_new_spec|].
  split_and!; [apply segments_text|done|done|done| |].
  - intros req params. apply Route_match_captures. apply segments_groups.
  - intros -> m Hm Hmr. apply Route_match_Some.
    exists m, "/settings/abc123", ["/settings/abc123"; "abc123"].
    split_and!; done.
Qed.

Lemma Route_compiles_and_extracts_witness :
  ∃ r, Route_new "GET" "/settings/:token" tt = Some r ∧
    Route_match r (MkRequest (Some "get") (Some "/settings/abc123"))
    = Some {["token" := Some "abc123"]} ∧
    ∃ url caps,
      RegExp_exec (regex r) url = Some (url :: caps) ∧
      ({["token" := Some "abc123"]} : Params) !! "token" = Some (caps !! 0).
Proof.
  destruct (Route_compiles_and_extracts "GET" "/settings/:token" tt)
    as (r & Hr & _ & _ & _ & Hnames & Hcaps & Hex).
  exists r. split; [exact Hr|].
  assert (Route_match r (MkRequest (Some "get") (Some "/settings/abc123"))
          = Some {["token" := Some "abc123"]}) as Hm.
  { apply Hex; [reflexivity|discriminate|reflexivity]. }
  split; [exact Hm|].
  destruct (Hcaps _ _ Hm) as (url & caps & _ & He & _ & _ & _ & Hi).
  exists url, caps. split; [exact He|].
  apply Hi; [rewrite Hnames; reflexivity| |discriminate].
  rewrite Hnames. apply not_elem_of_nil.
Defined.

(** C4, at the input where the code departs from it: the route of the
    template [/:__proto__] compiles as the claim says, to one non-slash
    group between the anchors, with the one parameter name [__proto__];
    its regex captures [x] from the URL [/x], and [match] returns a
    mapping; but the assignment of the capture to that name stores
    nothing, and the mapping returned is empty. *)
Theorem Route_proto_placeholder_unmapped :
  ∃ r, Route_new "GET" "/:__proto__" tt = Some r ∧
    source (regex r) = "^/" +:+ group_src +:+ "$" ∧
    paramNames r = ["__proto__"] ∧
    RegExp_exec (regex r) "/x" = Some ["/x"; "x"] ∧
    Route_match r (MkRequest (Some "GET") (Some "/x")) = Some ∅.
Proof. eexists. split; [reflexivity|]. split_and!; reflexivity. Qed.

(** C5, at the input where the code departs from it: the constructor keeps
    the method as given and upper-cases the template into [pattern]
    instead, so a route made with ["get"] matches neither [GET] nor [get]
    requests for a URL that fits its pattern. *)
Theorem Route_lowercase_method_unmatched :
  ∃ r, Route_new "get" "/settings/:token" tt = Some r ∧
    method r = "get" ∧ pattern r = code_units "/SETTINGS/:TOKEN" ∧
    RegExp_exec (regex r) "/settings/abc123"
      = Some ["/settings/abc123"; "abc123"] ∧
    Route_match r (MkRequest (Some "GET") (Some "/settings/abc123")) = None ∧
    Route_match r (MkRequest (Some "get") (Some "/settings/abc123")) = None.
Proof. eexists. split; [reflexivity|]. split_and!; reflexivity. Qed.

(** *** The model on examples *)

Example split_settings :
  split_placeholders "/settings/:token" = ["/settings/"; "token"; ""].
Proof. reflexivity. Qed.

Example split_adjacent :
  split_placeholders "/a/:x1_y/b.c/:z:w/:" =
  ["/a/"; "x1_y"; "/b.c/"; "z"; ""; "w"; "/:"].
Proof. reflexivity. Qed.

Example split_empty : split_placeholders "" = [""].
Proof. reflexivity. Qed.

Example escape_specials :
  escapeRegExp "/a.b/(c)$" = "/a\.b/\(c\)\$".
Proof. reflexivity. Qed.

Example settings_source :
  source <$> (regex <$> Route_new "GET" "/settings/:token" tt)
  = Some "^/settings/([^/]*)$".
Proof. reflexivity. Qed.

(** A value with a slash in it fails the group: no match, no error. *)
Example extra_slash_no_match :
  (Route_new "GET" "/settings/:token" tt ≫= λ r,
     Route_match r (MkRequest (Some "GET") (Some "/settings/abc/123")))
  = None.
Proof. reflexivity. Qed.

(** A group gives characters back to let the rest of the pattern match. *)
Example group_backtracks :
  (Route_new "GET" "/:name.:ext" tt ≫= λ r,
     Route_match r (MkRequest (Some "GET") (Some "/a.b.c")))
  = Some {["name" := Some "a.b"; "ext" := Some "c"]}.
Proof. vm_compute. reflexivity. Qed.
(** *** Dispatch *)

Section dispatch.
Context {Σ : Type}.
Implicit Types (routes : list (Route (RouteHandler Σ))).
Implicit Types (notFound : Handler Σ).

Lemma dispatch_with_first notFound before route after req res σ params :
  Forall (λ r, Route_match r req = None) before →
  Route_match route req = Some params →
  dispatch_with notFound (before ++ route :: after) req res σ
  = handler route req res params σ.
Proof.
  intros Hbefore Hroute. induction Hbefore as [|r before Hr _ IH]; simpl.
  - by rewrite Hroute.
  - by rewrite Hr.
Qed.

Lemma dispatch_with_none notFound routes req res σ :
  Forall (λ r, Route_match r req = None) routes →
  dispatch_with notFound routes req res σ = notFound req res σ.
Proof.
  intros Hnone. induction Hnone as [|r routes Hr _ IH]; simpl; [done|].
  by rewrite Hr.
Qed.

(** C6. The handler made by [dispatch] tries the routes in list order
    and runs the handler of the first route that matches, with that
    route's parameters, and nothing else; when no route matches, which
    is so for an empty list, it runs [notFound], whose default sets the
    status to 404 and ends the response with ['not found']. *)
Theorem dispatch_first_match_or_notFound routes
    (notFound : option (Handler Σ)) req res σ :
  (∀ before route after params,
     routes = before ++ route :: after →
     Forall (λ r, Route_match r req = None) before →
     Route_match route req = Some params →
     dispatch routes notFound req res σ
     = handler route req res params σ) ∧
  (Forall (λ r, Route_match r req = None) routes →
   dispatch routes notFound req res σ
   = default notFoundHandler notFound req res σ) ∧
  dispatch [] notFound req res σ
  = default notFoundHandler notFound req res σ ∧
  (finished res = false →
   notFoundHandler req res σ
   = (MkResponse 404 (body res ++ ["not found"]) true, σ)).
Proof.
  split_and!.
  - intros before route after params -> Hbefore Hroute.
    by apply dispatch_with_first.
  - apply dispatch_with_none.
  - done.
  - intros Hres. unfold notFoundHandler, Response_end. simpl.
    by rewrite Hres.
Qed.
End dispatch.

(** Two overlapping routes whose handlers record their number. *)
Lemma dispatch_first_match_or_notFound_witness :
  let h (n : nat) : RouteHandler (list nat) :=
    λ _ res _ log, (Response_end (Some "ok") res, log ++ [n]) in
  ∃ r1 r2,
    Route_new "GET" "/users/:id" (h 1) = Some r1 ∧
    Route_new "GET" "/users/admin" (h 2) = Some r2 ∧
    dispatch [r1; r2] None
      (MkRequest (Some "GET") (Some "/users/admin")) fresh_response []
    = (MkResponse 200 ["ok"] true, [1]) ∧
    dispatch [r2; r1] None
      (MkRequest (Some "GET") (Some "/users/42")) fresh_response []
    = (MkResponse 200 ["ok"] true, [1]) ∧
    dispatch [r1; r2] None
      (MkRequest (Some "GET") (Some "/groups")) fresh_response []
    = (MkResponse 404 ["not found"] true, []).
Proof.
  intros h. eexists _, _. split; [reflexivity|]. split; [reflexivity|].
  split_and!.
  - etrans.
    + eapply (proj1 (dispatch_first_match_or_notFound _ None _ _ _)
                [] _ [_]); [reflexivity|constructor|reflexivity].
    + reflexivity.
  - etrans.
    + eapply (proj1 (dispatch_first_match_or_notFound _ None _ _ _)
                [_] _ []); [reflexivity|repeat constructor|reflexivity].
    + reflexivity.
  - etrans.
    + apply (proj1 (proj2 (dispatch_first_match_or_notFound _ None _ _ _))).
      repeat constructor.
    + apply (proj2 (proj2 (proj2
        (dispatch_first_match_or_notFound [] None
           (MkRequest (Some "GET") (Some "/groups")) fresh_response [])))).
      reflexivity.
Defined.
End LibwebProps.

(** ** The bot *)

Module OpalbotProps.
Import Libweb Opalbot.

Section bot.
Context `{Collaborators}.


Lemma update_and_save (conv : Conversation) (settings : Settings)
    (w : World) :
  users (saveDatabase (update_user conv settings w)) !! user conv
    = Some settings ∧
  saved (saveDatabase (update_user conv settings w))
    = users (saveDatabase (update_user conv settings w)).
Proof. simpl. by rewrite lookup_insert_eq. Qed.

(** C7. When the [:token] parameter of a request names no slot of the
    registry, the settings handler returns at once, without throwing:
    the status is 404, the response is ended with ['invalid token'] and
    nothing else is written, and the bot's state is as before; in
    particular no [get] or [put] was made on the registry. *)
Theorem unknown_token_rejected (req : Request) (res : Response)
    (params : Params) (w : World) :
  (∀ token, mjoin (params !! "token") = Some token →
            IVars.has token (webSessions w) = false) →
  settingsHandler req res params w
    = Ret (Response_end (Some "invalid token") (set_statusCode 404 res), w)
          tt ∧
  (first_state (settingsHandler req res params w)).2 = w ∧
  (finished res = false →
   (first_state (settingsHandler req res params w)).1
   = MkResponse 404 (body res ++ ["invalid token"]) true).
Proof.
  intros Hunknown.
  assert (settingsHandler req res params w = invalid_token res w) as ->.
  { unfold settingsHandler.
    destruct (mjoin (params !! "token")) as [token|]; [|done].
    by rewrite (Hunknown token eq_refl). }
  split_and!; [done..|].
  intros Hres. simpl. unfold Response_end. simpl. by rewrite Hres.
Qed.

(** C10. On a [POST] with an issued token the handler awaits the form
    data.  If its [service] field is not ['caldav'], the response is
    ended with ['sorry; I did not understand the form'] and the bot's
    state is as the handler found it: no [put], the slot as it was.  If
    it is ['caldav'], the handler makes one [put] of the CalDAV settings
    of the form on the token and ends the response with ['got it;
    thanks!']; a consumer suspended on the token is resumed with these
    settings. *)
Theorem settings_post_resolves_only_caldav (req : Request)
    (res : Response) (params : Params) (w : World) (token : string) :
  mjoin (params !! "token") = Some token →
  IVars.has token (webSessions w) = true →
  req_method req = Some "POST" →
  ∃ k, settingsHandler req res params w = Await (FormData req) (res, w) k ∧
    ∀ (data : gmap string string) (res' : Response) (w' : World),
      (data !! "service" ≠ Some "caldav" →
       k data (res', w')
       = Ret (Response_end (Some "sorry; I did not understand the form")
                           res', w') tt) ∧
      (data !! "service" = Some "caldav" →
       let settings :=
         MkSettings (Some "caldav")
           (Some (MkCalDAV (data !! "url") (data !! "username")
                           (data !! "password"))) None in
       k data (res', w')
       = Ret (Response_end (Some "got it; thanks!") res',
              session_put token settings w') tt ∧
       sessionCalls (session_put token settings w')
       = sessionCalls w' ++ [CallPut token settings] ∧
       (webSessions w' !! token = Some IVars.AwaitingValue →
        IVars.put token settings (webSessions w')
        = (webSessions (session_put token settings w'),
           IVars.Delivered settings) ∧
        webSessions (session_put token settings w') !! token
        = Some IVars.Consumed)).
Proof.
  intros Htoken Hhas Hpost. unfold settingsHandler.
  rewrite Htoken, Hhas, Hpost. simpl.
  eexists. split; [reflexivity|].
  intros data res' w'. split.
  - intros Hdata. by rewrite bool_decide_eq_false_2.
  - intros Hdata. rewrite bool_decide_eq_true_2 by done.
    split_and!; [done..|].
    intros Hslot. unfold session_put, IVars.put. simpl.
    rewrite Hslot. simpl. by rewrite lookup_insert_eq.
Qed.

(** C8. [interact] awaits the NLP result and then runs exactly the
    handler the dispatch policy names: the first of the greeting, bye
    and thanks entities that is present decides; without any of them the
    intent string selects among [show_calendar], [schedule_meeting],
    [setup_calendar] and [help]; an absent or other intent gives the
    default handler, which sends its message and returns normally. *)
Theorem interact_follows_policy (text : string) (conv : Conversation)
    (w : World) :
  ∃ k, interact text conv w = Await (WitMessage text) w k ∧
    ∀ (res : WitResult) (w' : World),
      k res w' = run_handler (policy_handler res) conv w' ∧
      run_handler Unrecognized conv w'
      = Ret (send conv ":confused: :grey_question:" w') tt.
Proof.
  eexists. split; [reflexivity|]. intros res w'. split; [|done].
  unfold policy_handler, special_entities. cbn [find fst].
  destruct (getEntity res "greetings"); [done|].
  destruct (getEntity res "bye"); [done|].
  destruct (getEntity res "thanks"); [done|].
  destruct (entityValue res "intent") as [intent|];
    repeat case_bool_decide; simplify_eq; try done.
  cbn [mbind option_bind default].
  unfold intent_handlers.
  rewrite !lookup_insert_ne, lookup_singleton_ne by congruence. done.
Qed.

Lemma gatherSettings_spec (conv : Conversation) (w : World) :
  let token := randomString (randomCalls w) in
  let w1 :=
    set_sessions (IVars.get token (webSessions w)).1 (CallGet token)
      (send conv (settings_url token)
         (set_randomCalls (S (randomCalls w)) w)) in
  gatherSettings conv w
  = match (IVars.get token (webSessions w)).2 with
    | IVars.Suspended =>
        Await (SessionGet token) w1 (λ settings w', Ret w' settings)
    | IVars.Resumed settings => Ret w1 settings
    end.
Proof.
  unfold gatherSettings, session_get. simpl.
  destruct (IVars.get _ (webSessions w)) as [r [|settings]]; done.
Qed.

End bot.

Lemma unknown_token_rejected_witness :
  let w := empty_world in
  let params : Params := {["token" := Some "abc123"]} in
  let req := MkRequest (Some "GET") (Some "/settings/abc123") in
  (∀ token, mjoin (params !! "token") = Some token →
            IVars.has token (webSessions w) = false) ∧
  @settingsHandler test_collaborators req fresh_response params w
  = Ret (MkResponse 404 ["invalid token"] true, w) tt.
Proof.
  intros w params req.
  assert (∀ token, mjoin (params !! "token") = Some token →
                   IVars.has token (webSessions w) = false) as Hunknown.
  { intros token _. reflexivity. }
  split; [exact Hunknown|].
  apply (@unknown_token_rejected test_collaborators req fresh_response
           params w Hunknown).
Defined.

Lemma settings_post_resolves_only_caldav_witness :
  let w := set_sessions {["abc123" := IVars.AwaitingValue]}
             (CallGet "abc123") empty_world in
  let params : Params := {["token" := Some "abc123"]} in
  let req := MkRequest (Some "POST") (Some "/settings/abc123") in
  let office : gmap string string := {["service" := "office"]} in
  let form : gmap string string :=
    {["service" := "caldav"; "url" := "https://dav"; "username" := "u";
      "password" := "p"]} in
  let settings :=
    MkSettings (Some "caldav")
      (Some (MkCalDAV (Some "https://dav") (Some "u") (Some "p"))) None in
  ∃ k, @settingsHandler test_collaborators req fresh_response params w
       = Await (FormData req) (fresh_response, w) k ∧
    k office (fresh_response, w)
    = Ret (MkResponse 200 ["sorry; I did not understand the form"] true, w)
          tt ∧
    k form (fresh_response, w)
    = Ret (MkResponse 200 ["got it; thanks!"] true,
           session_put "abc123" settings w) tt ∧
    webSessions (session_put "abc123" settings w) !! "abc123"
    = Some IVars.Consumed.
Proof.
  intros w params req office form settings.
  destruct (@settings_post_resolves_only_caldav test_collaborators req
              fresh_response params w "abc123")
    as (k & Hk & Hdata); [reflexivity..|].
  exists k. split; [exact Hk|]. split_and!.
  - apply (proj1 (Hdata office fresh_response w)). discriminate.
  - apply (proj2 (Hdata form fresh_response w)). reflexivity.
  - apply (proj2 (Hdata form fresh_response w)); reflexivity.
Defined.

(** *** The bot on the scenarios of the design document *)

Section scenarios.
Let C := test_collaborators.
Let conv := MkConversation "U1" "slack".

(** "hello" with a greeting entity: one fixed reply, no suspension. *)
Example greeting_scenario :
  ∃ k, @interact C "hello" conv empty_world
       = Await (WitMessage "hello") empty_world k ∧
    k {["greetings" := "true"]} empty_world
    = Ret (set_sent [("U1", "hi!")] empty_world) tt.
Proof. eexists. split; reflexivity. Qed.

(** Showing the calendar of a user without settings: the bot sends the
    settings URL and suspends on the token; the form posted to that URL
    resumes it; it stores the settings and reports the events. *)
Example calendar_scenario :
  let asked : WitResult := {["intent" := "show_calendar"]} in
  let form : gmap string string :=
    {["service" := "caldav"; "url" := "https://dav.example"; "username" := "u";
      "password" := "p"]} in
  let settings :=
    MkSettings (Some "caldav")
      (Some (MkCalDAV (Some "https://dav.example") (Some "u") (Some "p")))
      None in
  let cal := CalDAVCalendar (Some "https://dav.example") (Some "u") (Some "p") in
  let req := MkRequest (Some "POST") (Some "/settings/token-0") in
  ∃ k1 w1 k2 route params k3 w2 w3 k4 w4,
    @interact C "show my calendar" conv empty_world
      = Await (WitMessage "show my calendar") empty_world k1 ∧
    k1 asked empty_world = Await (SessionGet "token-0") w1 k2 ∧
    sent w1 = [("U1", "let's get your calendar!");
               ("U1", "please fill out the form at " +:+
                      "http://localhost:5000/settings/token-0")] ∧
    webSessions w1 !! "token-0" = Some IVars.AwaitingValue ∧
    Route_new "POST" "/settings/:token" tt = Some route ∧
    Route_match route req = Some params ∧
    @settingsHandler C req fresh_response params w1
      = Await (FormData req) (fresh_response, w1) k3 ∧
    k3 form (fresh_response, w1)
      = Ret (MkResponse 200 ["got it; thanks!"] true, w2) tt ∧
    IVars.put "token-0" settings (webSessions w1)
      = (webSessions w2, IVars.Delivered settings) ∧
    k2 settings w2 = Await (GetEvents cal) w3 k4 ∧
    users w3 !! "U1" = Some settings ∧ saved w3 = users w3 ∧
    k4 [("2017-06-01T10:00:00", "standup")] w3 = Ret w4 tt ∧
    sent w4 = sent w1 ++ [("U1", "2017-06-01T10:00:00: standup")].
Proof.
  intros asked form settings cal req.
  eexists _, _, _, _, _, _, _, _, _, _.
  split_and!; try reflexivity.
Qed.
End scenarios.
End OpalbotProps.

(** ** More on the router *)

Module LibwebMore.
Import Libweb LibwebAux LibwebProps.

(** *** Escaping *)

Lemma rx_match_literal (text s : string) :
  rx_match (RxChar <$> chars text) s
  = if String.eqb s text then Some [] else None.
Proof.
  revert s. induction text as [|c text IH]; intros [|d s]; try done.
  cbn [chars fmap list_fmap rx_match]. fold (fmap (M := list) RxChar).
  rewrite IH. cbn [String.eqb]. rewrite (Ascii.eqb_sym d c).
  by destruct (Ascii.eqb c d).
Qed.

(** X1. The text that [escapeRegExp] returns, put between [^] and [$], is
    a regex that matches the original text and nothing else, and has no
    capture groups. *)
Theorem escapeRegExp_matches_literally (text : string) :
  ∃ re, RegExp_new ("^" +:+ escapeRegExp text +:+ "$") = Some re ∧
    ∀ s, RegExp_exec re s = if String.eqb s text then Some [s] else None.
Proof.
  rewrite app_cons, app_nil_l. unfold RegExp_new. rewrite Ascii.eqb_refl.
  rewrite parse_items_escape. eexists. split; [reflexivity|].
  intros s. unfold RegExp_exec. cbn [program fmap option_fmap option_map].
  rewrite (right_id_L [] (++)), rx_match_literal.
  by destruct (String.eqb s text).
Qed.

Lemma escapeRegExp_unescape (s : string) : unescape (escapeRegExp s) = s.
Proof.
  induction s as [|c s IH]; [done|]. cbn [escapeRegExp].
  destruct (special_char c) eqn:Hc; cbn [unescape].
  - rewrite Ascii.eqb_refl. by rewrite IH.
  - destruct (Ascii.eqb c backslash) eqn:Hb.
    + by rewrite (special_char_backslash c) in Hc.
    + by rewrite IH.
Qed.

Lemma escapeRegExp_length (s : string) :
  String.length (escapeRegExp s) = String.length s + count_special s.
Proof.
  induction s as [|c s IH]; [done|]. cbn [escapeRegExp count_special].
  destruct (special_char c); cbn [String.length]; rewrite IH; lia.
Qed.

(** X2. [escapeRegExp] loses nothing: dropping each backslash it added
    gives the argument back, so different texts have different escapes; the
    result is longer by one character for each special character, and is the
    argument itself exactly when that has no special character. *)
Theorem escapeRegExp_round_trip (s : string) :
  unescape (escapeRegExp s) = s ∧
  (∀ s', escapeRegExp s' = escapeRegExp s → s' = s) ∧
  String.length (escapeRegExp s) = String.length s + count_special s ∧
  (escapeRegExp s = s ↔ has_special s = false).
Proof.
  split_and!.
  - apply escapeRegExp_unescape.
  - intros s' Heq. by rewrite <-(escapeRegExp_unescape s'), Heq,
      escapeRegExp_unescape.
  - apply escapeRegExp_length.
  - split.
    + intros Heq. pose proof (escapeRegExp_length s) as Hlen.
      rewrite Heq in Hlen. clear Heq.
      induction s as [|c s IH]; [done|]. cbn [has_special count_special] in *.
      destruct (special_char c); [lia|]. apply IH. simpl in Hlen. lia.
    + induction s as [|c s IH]; [done|]. cbn [has_special escapeRegExp].
      intros [-> Hs]%orb_false_iff. by rewrite IH.
Qed.

Lemma escapeRegExp_round_trip_witness :
  escapeRegExp "/a.b" = escapeRegExp "/a.b" ∧ "/a.b" = "/a.b" ∧
  String.length (escapeRegExp "/a.b") = 5.
Proof.
  split; [reflexivity|]. split.
  - apply (proj1 (proj2 (escapeRegExp_round_trip "/a.b"))). reflexivity.
  - apply (proj1 (proj2 (proj2 (escapeRegExp_round_trip "/a.b")))).
Defined.

(** *** The parts of a template *)

Lemma take_while_all (p : ascii → bool) (s : string) :
  all_chars p (take_while p s) = true.
Proof.
  induction s as [|c s IH]; [done|]. cbn [take_while].
  destruct (p c) eqn:Hc; [|done]. cbn [all_chars]. by rewrite Hc, IH.
Qed.

Lemma placeholder_at_identifier (s name : string) :
  placeholder_at s = Some name → identifier name = true.
Proof.
  destruct s as [|c0 [|c1 rest]]; simpl; try done.
  destruct (Ascii.eqb c0 ":"); simpl; [|done].
  destruct (word_char c1) eqn:Hc; [|done]. intros [= <-].
  cbn [identifier]. by rewrite Hc, take_while_all.
Qed.

Lemma split_go_identifiers (n : nat) (s acc : string) :
  String.length s ≤ n →
  Forall (λ name, identifier name = true)
    (placeholder_names (segments_from false (split_go s 0 acc))).
Proof.
  revert s acc. induction n as [|n IH]; intros s acc Hn.
  - destruct s; simpl in *; [|lia]. constructor.
  - destruct s as [|c s]; [constructor|].
    cbn [split_go]. destruct (placeholder_at (String c s)) as [name|] eqn:Hp.
    + pose proof (placeholder_at_identifier _ _ Hp) as Hid.
      apply placeholder_at_Some in Hp as (s' & [= -> ->] & Hlen & Hname).
      rewrite split_go_skip by done.
      cbn [segments_from negb]. unfold placeholder_names.
      rewrite !bind_cons. cbn [app]. constructor; [done|].
      apply IH. pose proof (string_drop_length (String.length name) s').
      simpl in Hn. lia.
    + apply IH. simpl in Hn. lia.
Qed.

Lemma all_chars_occurs (p : ascii → bool) (c : ascii) (s : string) :
  all_chars p s = true → p c = false → occurs c s = false.
Proof.
  intros Hs Hc. induction s as [|d s IH]; [done|].
  cbn [all_chars occurs] in *. apply andb_true_iff in Hs as [Hd Hs].
  rewrite IH by done. destruct (Ascii.eqb_spec c d) as [->|]; [|done].
  congruence.
Qed.

Lemma identifier_occurs (c : ascii) (name : string) :
  identifier name = true → word_or_digit_char c = false →
  occurs c name = false.
Proof.
  destruct name as [|d name]; [done|]. cbn [identifier].
  intros [Hd Hname]%andb_true_iff Hc.
  apply (all_chars_occurs word_or_digit_char c (String d name)); [|done].
  cbn [all_chars]. rewrite Hname. unfold word_or_digit_char. by rewrite Hd.
Qed.

(** X3. The parameter names of a route are identifiers: each is one word
    character followed by word characters and digits; so none is empty and
    none has a colon or a slash in it. *)
Theorem paramNames_are_identifiers {H : Type} (method pattern : string)
    (handler : H) :
  ∃ r, Route_new method pattern handler = Some r ∧
    Forall (λ name, identifier name = true ∧ name ≠ "" ∧
                    occurs ":" name = false ∧ occurs "/" name = false)
           (paramNames r).
Proof.
  eexists. split; [apply Route_new_spec|]. cbn [paramNames].
  eapply Forall_impl;
    [apply (split_go_identifiers (String.length pattern)); done|].
  intros name Hid. split_and!; [done| |by apply identifier_occurs..].
  by destruct name.
Qed.

Lemma split_go_no_colon (s acc : string) :
  occurs ":" s = false → split_go s 0 acc = [acc +:+ s].
Proof.
  revert acc. induction s as [|c s IH]; intros acc Hs.
  - by rewrite app_nil_r.
  - cbn [occurs] in Hs. apply orb_false_iff in Hs as [Hc Hs].
    cbn [split_go]. replace (placeholder_at (String c s)) with (@None string).
    + rewrite IH by done. by rewrite app_assoc.
    + destruct s; cbn [placeholder_at]; [done|].
      by rewrite Ascii.eqb_sym, Hc.
Qed.

(** X4. A template without a colon gives a route without parameters that
    matches exactly the requests whose method is not empty and has the
    route's method as its upper case, and whose URL is the template,
    character for character; the mapping it returns is empty. *)
Theorem static_route_matches_exactly {H : Type} (method pattern : string)
    (handler : H) :
  occurs ":" pattern = false →
  ∃ r, Route_new method pattern handler = Some r ∧
    paramNames r = [] ∧
    ∀ m url,
      Route_match r (MkRequest (Some m) (Some url))
      = if truthy m && bool_decide (toUpperCase m = code_units method)
           && truthy url && String.eqb url pattern
        then Some ∅ else None.
Proof.
  intros Hcolon. eexists. split; [apply Route_new_spec|].
  unfold segments, split_placeholders.
  rewrite split_go_no_colon, app_nil_l by done. split; [done|].
  intros m url. unfold Route_match.
  cbn -[String.eqb toUpperCase code_units truthy].
  destruct (truthy m && _ && truthy url); [|done].
  unfold RegExp_exec. cbn [program]. rewrite (right_id_L [] (++)).
  rewrite rx_match_literal. cbn [andb]. by destruct (String.eqb url pattern).
Qed.

Lemma static_route_matches_exactly_witness :
  occurs ":" "/fb" = false ∧
  ∃ r, Route_new "POST" "/fb" tt = Some r ∧
    Route_match r (MkRequest (Some "post") (Some "/fb")) = Some ∅ ∧
    Route_match r (MkRequest (Some "post") (Some "/fb/")) = None.
Proof.
  split; [reflexivity|].
  destruct (static_route_matches_exactly "POST" "/fb" tt eq_refl)
    as (r & Hr & _ & Hm).
  exists r. split; [exact Hr|]. split; rewrite Hm; reflexivity.
Defined.

(** *** When a route matches *)

Lemma items_text_fill (sgs : list segment) (caps : list string) :
  items_text (sgs ≫= segment_items) caps = fill sgs caps.
Proof.
  revert caps. induction sgs as [|[text|name] sgs IH]; intros caps; [done| |].
  - rewrite bind_cons. cbn [segment_items fill]. rewrite <-IH.
    induction text as [|c text IHt]; [done|].
    cbn [chars fmap list_fmap app items_text]. rewrite app_cons. f_equal.
    apply IHt.
  - rewrite bind_cons. cbn [segment_items app items_text fill].
    destruct caps; by rewrite IH.
Qed.

(** X5. A request matches a route exactly when the upper case of its
    method is the route's method, neither method nor URL is empty, and the
    URL is the template with a slash-free string in place of each
    placeholder. *)
Theorem Route_match_iff {H : Type} (method pattern : string) (handler : H) :
  ∃ r, Route_new method pattern handler = Some r ∧
    ∀ req,
      is_Some (Route_match r req) ↔
      ∃ m url caps,
        req_method req = Some m ∧ m ≠ "" ∧
        toUpperCase m = code_units method ∧
        req_url req = Some url ∧ url ≠ "" ∧
        length caps = length (paramNames r) ∧ Forall slash_free caps ∧
        fill (segments pattern) caps = url.
Proof.
  eexists. split; [apply Route_new_spec|]. intros req. split.
  - intros [params Hm]. pose proof Hm as Hm'.
    apply Route_match_Some in Hm' as (m & url & mt & ? & ? & ? & ? & ? & _).
    apply Route_match_captures in Hm
      as (url' & caps & ? & _ & ? & ? & Htext & _); [|apply segments_groups].
    exists m, url, caps. cbn [regex program] in Htext.
    rewrite items_text_fill in Htext. split_and!; try done. congruence.
  - intros (m & url & caps & Hm & ? & ? & Hu & ? & Hlen & Hall & Hfill).
    destruct (rx_match_complete (segments pattern ≫= segment_items) caps)
      as [caps' Hcaps]; [by rewrite segments_groups|done|].
    rewrite items_text_fill, Hfill in Hcaps.
    eexists. apply Route_match_Some. exists m, url, (url :: caps').
    split_and!; try done. unfold RegExp_exec. cbn [regex program].
    by rewrite Hcaps.
Qed.

Lemma pack_from_dom (names : list string) (i : nat) (mt : list string)
    (params : Params) :
  dom (pack_from i names mt params)
  = (list_to_set names ∖ {["__proto__"]}) ∪ dom params.
Proof.
  revert i params. induction names as [|n names IH]; intros i params;
    cbn [pack_from list_to_set].
  - apply set_eq. intros x. rewrite elem_of_union, elem_of_difference.
    rewrite elem_of_empty. tauto.
  - rewrite IH. unfold assign.
    destruct (String.eqb_spec n "__proto__") as [->|Hn].
    + apply set_eq. intros x.
      rewrite !elem_of_union, !elem_of_difference, elem_of_union.
      rewrite !elem_of_singleton. tauto.
    + rewrite dom_insert_L. apply set_eq. intros x.
      rewrite !elem_of_union, !elem_of_difference, elem_of_union.
      rewrite !elem_of_singleton.
      destruct (decide (x = n)) as [->|Hx]; intuition congruence.
Qed.

Lemma pack_from_values (names : list string) (i : nat) (mt : list string)
    (params : Params) (P : option string → Prop) :
  (∀ j, j < length names → P (mt !! (i + j + 1))) →
  map_Forall (λ _, P) params →
  map_Forall (λ _, P) (pack_from i names mt params).
Proof.
  revert i params. induction names as [|n names IH]; intros i params Hmt Hp;
    cbn [pack_from]; [done|].
  apply IH.
  - intros j Hj. replace (S i + j + 1) with (i + S j + 1) by lia.
    apply Hmt. simpl. lia.
  - unfold assign. destruct (String.eqb n "__proto__"); [done|].
    apply map_Forall_insert_2; [|done].
    replace (i + 1) with (i + 0 + 1) by lia. apply Hmt. simpl. lia.
Qed.

(** X6. The own properties of the mapping that [match] returns are the
    parameter names of the route other than [__proto__], and no other; and
    every value in it is a string (never [undefined]) without a slash. *)
Theorem Route_match_keys_and_values {H : Type} (method pattern : string)
    (handler : H) (r : Route H) (req : Request) (params : Params) :
  Route_new method pattern handler = Some r →
  Route_match r req = Some params →
  dom params = list_to_set (paramNames r) ∖ {["__proto__"]} ∧
  ∀ name v, params !! name = Some v → ∃ s, v = Some s ∧ slash_free s.
Proof.
  rewrite Route_new_spec. intros [= <-].
  intros (_ & url & mt & _ & _ & _ & _ & _ & He & ->)%Route_match_Some.
  unfold RegExp_exec in He. cbn [regex program paramNames] in *.
  destruct (rx_match _ url) as [caps|] eqn:Hcaps; [|done].
  injection He as <-.
  apply rx_match_sound in Hcaps as (Hlen & _ & Hall).
  rewrite segments_groups in Hlen. split.
  - unfold pack. by rewrite pack_from_dom, dom_empty_L, (right_id_L ∅ (∪)).
  - apply (pack_from_values _ 0 (url :: caps) ∅
             (λ v, ∃ s, v = Some s ∧ slash_free s)); [|apply map_Forall_empty].
    intros j Hj. replace (0 + j + 1) with (S j) by lia. cbn [lookup list_lookup].
    destruct (lookup_lt_is_Some_2 caps j) as [s Hs]; [lia|].
    exists s. split; [done|].
    by apply (Forall_lookup_1 _ _ _ _ Hall Hs).
Qed.

Lemma Route_match_keys_and_values_witness :
  let r : Route () :=
    default (MkRoute "" [] tt [] (MkRegExp "" []))
            (Route_new "GET" "/users/:id/:__proto__/:post" tt) in
  let req := MkRequest (Some "GET") (Some "/users/7/posts/42") in
  let params : Params := {["id" := Some "7"; "post" := Some "42"]} in
  Route_new "GET" "/users/:id/:__proto__/:post" tt = Some r ∧
  paramNames r = ["id"; "__proto__"; "post"] ∧
  Route_match r req = Some params ∧
  dom params = list_to_set (paramNames r) ∖ {["__proto__"]}.
Proof.
  intros r req params.
  assert (Route_new "GET" "/users/:id/:__proto__/:post" tt = Some r) as Hr
    by reflexivity.
  assert (Route_match r req = Some params) as Hm by reflexivity.
  split; [exact Hr|]. split; [reflexivity|]. split; [exact Hm|].
  apply (Route_match_keys_and_values _ _ _ _ _ _ Hr Hm).
Defined.

(** [toUpperCase] beyond the ASCII letters: e acute (233) has its
    capital at 201, the sharp s (223) becomes [SS], the division sign
    (247) stays, and the capitals of the micro sign (181) and of y with
    diaeresis (255) are no code units of the range. *)
Example toUpperCase_latin1 :
  toUpperCase ("get" +:+ String (ascii_of_N 233) "")
    = code_units ("GET" +:+ String (ascii_of_N 201) "") ∧
  toUpperCase (String (ascii_of_N 223) "") = code_units "SS" ∧
  toUpperCase (String (ascii_of_N 247) "") = [247%N] ∧
  toUpperCase (String (ascii_of_N 181) "") = [924%N] ∧
  toUpperCase (String (ascii_of_N 255) "") = [376%N].
Proof. split_and!; reflexivity. Qed.

(** A route whose method is the capital E acute matches a request whose
    method is the small one; a route whose method is the small one matches
    neither. *)
Example Route_match_latin1 :
  let small := String (ascii_of_N 233) "" in
  let capital := String (ascii_of_N 201) "" in
  ∃ r1 r2 : Route (),
    Route_new capital "/fb" tt = Some r1 ∧
    Route_new small "/fb" tt = Some r2 ∧
    Route_match r1 (MkRequest (Some small) (Some "/fb")) = Some ∅ ∧
    Route_match r2 (MkRequest (Some small) (Some "/fb")) = None ∧
    Route_match r2 (MkRequest (Some capital) (Some "/fb")) = None.
Proof.
  intros small capital. eexists _, _.
  split; [reflexivity|]. split; [reflexivity|]. split_and!; reflexivity.
Qed.

(** X7. A route made with a method that is not its own upper case matches
    no request at all, whatever the method and URL of the request. *)
Theorem Route_new_needs_upper_method {H : Type} (method pattern : string)
    (handler : H) :
  toUpperCase method ≠ code_units method →
  ∃ r, Route_new method pattern handler = Some r ∧
    ∀ req, Route_match r req = None.
Proof.
  intros Hmethod. eexists. split; [apply Route_new_spec|].
  intros req. by apply Route_match_not_upper.
Qed.

Lemma Route_new_needs_upper_method_witness :
  toUpperCase "Post" ≠ code_units "Post" ∧
  ∃ r, Route_new "Post" "/fb" tt = Some r ∧
    Route_match r (MkRequest (Some "POST") (Some "/fb")) = None ∧
    Route_match r (MkRequest (Some "Post") (Some "/fb")) = None.
Proof.
  assert (toUpperCase "Post" ≠ code_units "Post") as Hne by discriminate.
  split; [exact Hne|].
  destruct (Route_new_needs_upper_method "Post" "/fb" tt Hne) as (r & Hr & Hm).
  exists r. split; [exact Hr|]. split; apply Hm.
Defined.

(** *** More on dispatch *)

Section dispatch.
Context {Σ : Type}.
Implicit Types (routes : list (Route (RouteHandler Σ))).
Implicit Types (notFound : Handler Σ).

(** X8. Dispatching over two route lists one after the other is
    dispatching over the first with the dispatcher of the second as its
    not-found handler: the second list is consulted only for requests that
    no route of the first matches. *)
Theorem dispatch_with_app notFound routes1 routes2 req res σ :
  dispatch_with notFound (routes1 ++ routes2) req res σ
  = dispatch_with (dispatch_with notFound routes2) routes1 req res σ.
Proof.
  induction routes1 as [|route routes1 IH]; simpl; [done|].
  by destruct (Route_match route req).
Qed.

Lemma Route_match_needs_method_and_url {H : Type} (r : Route H) req :
  from_option truthy false (req_method req)
    && from_option truthy false (req_url req) = false →
  Route_match r req = None.
Proof.
  unfold Route_match.
  destruct (req_method req) as [m|], (req_url req) as [url|]; try done.
  simpl. destruct (truthy m), (truthy url); try done.
  intros _. by rewrite andb_false_r.
Qed.

(** X9. A request whose method or URL is missing or empty is matched by
    no route: whatever the routes are, it gets the not-found handler. *)
Theorem dispatch_without_method_or_url routes (notFound : option (Handler Σ))
    req res σ :
  from_option truthy false (req_method req)
    && from_option truthy false (req_url req) = false →
  dispatch routes notFound req res σ
  = default notFoundHandler notFound req res σ.
Proof.
  intros Hreq. unfold dispatch. apply dispatch_with_none.
  apply Forall_forall. intros r _.
  by apply Route_match_needs_method_and_url.
Qed.
End dispatch.

(** The regex of [:rest] alone matches the empty string; the route still
    does not match a request with an empty URL. *)
Lemma dispatch_without_method_or_url_witness :
  let h : RouteHandler () := λ _ res _ σ, (Response_end (Some "ok") res, σ) in
  ∃ r, Route_new "GET" ":rest" h = Some r ∧
    RegExp_exec (regex r) "" = Some [""; ""] ∧
    dispatch [r] None (MkRequest (Some "GET") (Some "")) fresh_response ()
    = (MkResponse 404 ["not found"] true, ()).
Proof.
  intros h. eexists. split; [reflexivity|]. split; [reflexivity|].
  etrans; [apply dispatch_without_method_or_url; reflexivity|reflexivity].
Defined.
End LibwebMore.

(** ** More on the bot *)

Module OpalbotMore.
Import Libweb Opalbot OpalbotAux OpalbotProps.

Section footprints.
Context `{Collaborators}.

(** *** Stretches compose *)

Lemma stepwise_start {S A : Type} (R : S → S → Prop) (s0 s1 : S)
    (m : Async S A) :
  (∀ a b c, R a b → R b c → R a c) →
  R s0 s1 → stepwise R s1 m → stepwise R s0 m.
Proof.
  intros Htrans H01. destruct m as [s a|s err|X e s k]; simpl.
  - by apply Htrans.
  - by apply Htrans.
  - intros [H1 Hk]. split; [by eapply Htrans|done].
Qed.

Lemma stepwise_bind {S A B : Type} (R : S → S → Prop) (s0 : S)
    (m : Async S A) (f : A → S → Async S B) :
  (∀ a b c, R a b → R b c → R a c) →
  stepwise R s0 m → (∀ a s, stepwise R s (f a s)) →
  stepwise R s0 (bind m f).
Proof.
  intros Htrans Hm Hf. revert s0 Hm.
  induction m as [s a|s err|X e s k IH]; intros s0 Hm; simpl in *.
  - by eapply stepwise_start.
  - done.
  - destruct Hm as [H0 Hk]. split; [done|]. intros x s'. by apply IH.
Qed.

Lemma on_await_bind {S A B : Type} (Q : ∀ X, Event X → S → Prop)
    (m : Async S A) (f : A → S → Async S B) :
  on_await Q m → (∀ a s, on_await Q (f a s)) → on_await Q (bind m f).
Proof.
  intros Hm Hf. induction m as [s a|s err|X e s k IH]; simpl in *; [done..|].
  destruct Hm as [H0 Hk]. split; [done|]. intros x s'. by apply IH.
Qed.

(** *** The footprint of a conversation *)

Section conversation.
Context (conv : Conversation) (R : World → World → Prop).
Context (HR : Footprint conv R).

Lemma calendar_of_stepwise settings w : stepwise R w (calendar_of settings w).
Proof.
  unfold calendar_of. repeat case_bool_decide; simpl;
    [destruct (caldav settings); simpl|..]; apply (fp_refl _ _ HR).
Qed.

Lemma gatherSettings_stepwise w : stepwise R w (gatherSettings conv w).
Proof.
  rewrite gatherSettings_spec.
  assert (R w (set_sessions
                 (IVars.get (randomString (randomCalls w)) (webSessions w)).1
                 (CallGet (randomString (randomCalls w)))
                 (send conv (settings_url (randomString (randomCalls w)))
                    (set_randomCalls (S (randomCalls w)) w)))) as Hw.
  { eapply (fp_trans _ _ HR); [apply (fp_random _ _ HR)|].
    eapply (fp_trans _ _ HR); [apply (fp_send _ _ HR)|].
    pose proof (fp_get _ _ HR (randomString (randomCalls w))
      (send conv (settings_url (randomString (randomCalls w)))
         (set_randomCalls (S (randomCalls w)) w))) as Hget.
    unfold session_get in Hget. simpl in Hget.
    by destruct (IVars.get _ (webSessions w)). }
  destruct (IVars.get _ (webSessions w)).2; simpl; [|done].
  split; [done|]. intros settings w'. apply (fp_refl _ _ HR).
Qed.

Lemma getCalendar_stepwise force w : stepwise R w (getCalendar conv force w).
Proof.
  unfold getCalendar. pose proof (fp_getUser _ _ HR w) as Hu.
  destruct (getUser conv w) as [stored w0]. simpl in Hu.
  eapply stepwise_start; [apply (fp_trans _ _ HR)|exact Hu|].
  destruct (force || negb (configured stored)).
  - apply stepwise_bind; [apply (fp_trans _ _ HR)|apply gatherSettings_stepwise|].
    intros settings w'.
    eapply stepwise_start;
      [apply (fp_trans _ _ HR)|apply (fp_store _ _ HR)|].
    apply calendar_of_stepwise.
  - apply calendar_of_stepwise.
Qed.

Lemma interact_stepwise text w : stepwise R w (interact text conv w).
Proof.
  pose proof (fp_refl _ _ HR) as Hrefl.
  pose proof (fp_trans _ _ HR) as Htrans.
  pose proof (fp_send _ _ HR) as Hsend.
  simpl. split; [done|]. intros res w'.
  destruct (getEntity res "greetings"); [apply Hsend|].
  destruct (getEntity res "bye"); [apply Hsend|].
  destruct (getEntity res "thanks"); [apply Hsend|].
  repeat case_bool_decide; try apply Hsend.
  - unfold handle_show_calendar.
    eapply stepwise_start; [done|apply Hsend|].
    apply stepwise_bind; [done|apply getCalendar_stepwise|].
    intros [cal|] w1; [|apply Hrefl]. simpl. split; [done|].
    intros events w2. apply Hsend.
  - unfold handle_setup_calendar.
    apply stepwise_bind; [done|apply getCalendar_stepwise|].
    intros _ w1. apply Hsend.
Qed.
End conversation.

Lemma sends_to_footprint conv : Footprint conv (sends_to conv).
Proof.
  split.
  - intros w. exists []. by rewrite (right_id_L [] (++)).
  - intros w1 w2 w3 (l1 & H1 & Hl1) (l2 & H2 & Hl2). exists (l1 ++ l2).
    rewrite H2, H1, (assoc_L (++)). split; [done|]. by apply Forall_app.
  - intros text w. exists [(user conv, text)]. split; [done|].
    by repeat constructor.
  - intros w. exists []. rewrite (right_id_L [] (++)). split; [|done].
    unfold getUser. by destruct (users w !! user conv).
  - intros w. exists []. by rewrite (right_id_L [] (++)).
  - intros token w. exists []. rewrite (right_id_L [] (++)). split; [|done].
    unfold session_get. by destruct (IVars.get token (webSessions w)).
  - intros settings w. exists []. by rewrite (right_id_L [] (++)).
Qed.

Lemma keeps_saved_footprint conv : Footprint conv (keeps_saved conv).
Proof.
  split.
  - by intros w.
  - intros w1 w2 w3 [H1 Ho1] [H2 Ho2]. split; [auto|].
    intros u Hu. by rewrite Ho2, Ho1.
  - by intros text w.
  - intros w. unfold getUser.
    destruct (users w !! user conv); [done|]. unfold keeps_saved. simpl.
    split; [done|]. intros u Hu. by rewrite lookup_insert_ne.
  - by intros w.
  - intros token w. unfold session_get.
    by destruct (IVars.get token (webSessions w)).
  - intros settings w. unfold keeps_saved. simpl. split; [done|].
    intros u Hu. by rewrite lookup_insert_ne.
Qed.

Lemma only_gets_footprint conv : Footprint conv only_gets.
Proof.
  split.
  - intros w. exists []. by rewrite (right_id_L [] (++)).
  - intros w1 w2 w3 (l1 & H1 & Hl1) (l2 & H2 & Hl2). exists (l1 ++ l2).
    rewrite H2, H1, (assoc_L (++)). split; [done|]. by apply Forall_app.
  - intros text w. exists []. by rewrite (right_id_L [] (++)).
  - intros w. exists []. rewrite (right_id_L [] (++)). split; [|done].
    unfold getUser. by destruct (users w !! user conv).
  - intros w. exists []. by rewrite (right_id_L [] (++)).
  - intros token w. exists [CallGet token]. unfold session_get.
    destruct (IVars.get token (webSessions w)). simpl.
    split; [done|]. by repeat constructor.
  - intros settings w. exists []. by rewrite (right_id_L [] (++)).
Qed.

(** X10. Whatever the NLP result and whatever [interact] is resumed with,
    each stretch of it only adds to the messages sent, and every message it
    adds goes to the user of its conversation. *)
Theorem interact_sends_to_its_user (text : string) (conv : Conversation)
    (w : World) :
  stepwise (sends_to conv) w (interact text conv w).
Proof. apply interact_stepwise, sends_to_footprint. Qed.

(** X11. No stretch of [interact] leaves an unsaved change behind: if the
    saved users are the users in memory when the stretch starts, they are
    when it ends; and no stretch changes the record of a user other than
    the one of its conversation. *)
Theorem interact_keeps_users_saved (text : string) (conv : Conversation)
    (w : World) :
  stepwise (keeps_saved conv) w (interact text conv w).
Proof. apply interact_stepwise, keeps_saved_footprint. Qed.

(** X12. A conversation never resolves a named future: the only calls
    [interact] makes on the registry are [get]s. *)
Theorem interact_only_gets (text : string) (conv : Conversation) (w : World) :
  stepwise only_gets w (interact text conv w).
Proof. apply (interact_stepwise conv), only_gets_footprint. Qed.

(** *** Waiting for a token *)

Lemma get_registers {T : Type} (token : string)
    (r : gmap string (IVars.slot T)) :
  IVars.has token (IVars.get token r).1 = true.
Proof.
  unfold IVars.has, IVars.get. apply bool_decide_eq_true.
  destruct (r !! token) as [[| |]|] eqn:Hr; simpl;
    rewrite ?lookup_insert_eq, ?Hr; by eexists.
Qed.

Lemma gatherSettings_announced conv w :
  on_await (announced conv) (gatherSettings conv w).
Proof.
  rewrite gatherSettings_spec.
  destruct (IVars.get _ (webSessions w)).2 eqn:Hget; simpl; [|done].
  split; [|done]. split; [apply get_registers|].
  by rewrite last_snoc.
Qed.

Lemma calendar_of_announced conv settings w :
  on_await (announced conv) (calendar_of settings w).
Proof.
  unfold calendar_of. repeat case_bool_decide; [|done..].
  by destruct (caldav settings).
Qed.

Lemma getCalendar_announced conv force w :
  on_await (announced conv) (getCalendar conv force w).
Proof.
  unfold getCalendar. destruct (getUser conv w) as [stored w0].
  destruct (force || negb (configured stored)).
  - apply on_await_bind; [apply gatherSettings_announced|].
    intros settings w'. apply calendar_of_announced.
  - apply calendar_of_announced.
Qed.

(** X13. Whenever [interact] is suspended on a token of the registry, the
    registry has that token, so that a request for its settings URL is not
    turned away, and the last message sent to the user of the conversation
    is the one with that URL. *)
Theorem interact_announces_its_token (text : string) (conv : Conversation)
    (w : World) :
  on_await (announced conv) (interact text conv w).
Proof.
  simpl. split; [done|]. intros res w'.
  destruct (getEntity res "greetings"); [done|].
  destruct (getEntity res "bye"); [done|].
  destruct (getEntity res "thanks"); [done|].
  repeat case_bool_decide; try done.
  - apply on_await_bind; [apply getCalendar_announced|].
    by intros [cal|] w1.
  - apply on_await_bind; [apply getCalendar_announced|]. done.
Qed.

(** *** The settings handler *)


(** X15. The settings handler leaves the users, the saved users, the
    messages sent and the random strings drawn alone.  On the registry each
    stretch of it does nothing, or makes exactly one [put], on the token of
    the request and of settings that name the service ['caldav'] and carry
    its record. *)
Theorem settingsHandler_footprint (req : Request) (res : Response)
    (params : Params) (w : World) :
  stepwise (settings_footprint (mjoin (params !! "token"))) (res, w)
    (settingsHandler req res params w).
Proof.
  assert (∀ token (s : Response * World) r,
            settings_footprint token s (r, s.2)) as Hsame.
  { intros token s r. unfold settings_footprint. simpl.
    split_and!; try done. by left. }
  unfold settingsHandler, invalid_token.
  destruct (mjoin (params !! "token")) as [token|];
    [|apply (Hsame None (res, w))].
  destruct (IVars.has token (webSessions w)); simpl;
    [|apply (Hsame _ (res, w))].
  repeat case_bool_decide.
  - destruct (officeClient w); simpl.
    + split; [apply (Hsame _ (res, w))|]. intros auth_url [res' w'].
      unfold settings_footprint. simpl. split_and!; try done. by left.
    + unfold settings_footprint. simpl. split_and!; try done. by left.
  - simpl. split; [apply (Hsame _ (res, w))|]. intros data [res' w'].
    case_bool_decide; simpl; [|apply (Hsame _ (res', w'))].
    unfold settings_footprint. simpl. split_and!; try done. right.
    exists token, (form_settings data). by split_and!.
  - simpl. apply (Hsame _ (res, w)).
Qed.
End footprints.

Section handoff.
Context `{Collaborators}.

Lemma getCalendar_suspends (conv : Conversation) (force : bool) (w : World) :
  force || negb (from_option configured false (users w !! user conv)) = true →
  webSessions w !! randomString (randomCalls w) = None →
  ∃ w1 k,
    getCalendar conv force w
      = Await (SessionGet (randomString (randomCalls w))) w1 k ∧
    webSessions w1 !! randomString (randomCalls w)
      = Some IVars.AwaitingValue ∧
    sessionCalls w1
      = sessionCalls w ++ [CallGet (randomString (randomCalls w))] ∧
    last (sent w1)
      = Some (user conv, settings_url (randomString (randomCalls w))) ∧
    ∀ settings w',
      k settings w'
      = calendar_of settings (saveDatabase (update_user conv settings w')).
Proof.
  intros Hneed Hfresh. unfold getCalendar, getUser.
  destruct (users w !! user conv) as [stored|] eqn:Hu; simpl in *.
  - rewrite Hneed, gatherSettings_spec. unfold IVars.get. rewrite Hfresh.
    simpl. eexists _, _. split; [reflexivity|]. simpl.
    rewrite lookup_insert_eq, last_snoc. done.
  - rewrite orb_true_r, gatherSettings_spec. unfold IVars.get. simpl.
    rewrite Hfresh. simpl. eexists _, _. split; [reflexivity|]. simpl.
    rewrite lookup_insert_eq, last_snoc. done.
Qed.

(** X16. The settings hand-off, end to end.  When [getCalendar] has to
    gather settings and draws a token the registry does not know, it
    suspends on that token.  A [POST] for the token with a form whose
    service is ['caldav'], handled while the token is still awaited, answers
    ['got it; thanks!'] and delivers the settings of the form to the
    suspended [getCalendar], which stores them for the user, saves, and
    returns the CalDAV calendar of the form's url, username and password. *)
Theorem settings_form_resumes_getCalendar (conv : Conversation) (force : bool)
    (w : World) (req : Request) (params : Params)
    (data : gmap string string) :
  let token := randomString (randomCalls w) in
  force || negb (from_option configured false (users w !! user conv)) = true →
  webSessions w !! token = None →
  mjoin (params !! "token") = Some token →
  req_method req = Some "POST" →
  data !! "service" = Some "caldav" →
  ∃ w1 k,
    getCalendar conv force w = Await (SessionGet token) w1 k ∧
    webSessions w1 !! token = Some IVars.AwaitingValue ∧
    ∀ res wh, webSessions wh !! token = Some IVars.AwaitingValue →
      ∃ k3,
        settingsHandler req res params wh = Await (FormData req) (res, wh) k3 ∧
        ∀ res' wp, webSessions wp !! token = Some IVars.AwaitingValue →
          ∃ w2,
            k3 data (res', wp)
              = Ret (Response_end (Some "got it; thanks!") res', w2) tt ∧
            IVars.put token (form_settings data) (webSessions wp)
              = (webSessions w2, IVars.Delivered (form_settings data)) ∧
            ∀ w',
              k (form_settings data) w'
              = Ret (saveDatabase (update_user conv (form_settings data) w'))
                    (Some (CalDAVCalendar (data !! "url") (data !! "username")
                                          (data !! "password"))).
Proof.
  intros token Hneed Hfresh Htoken Hpost Hdata.
  destruct (getCalendar_suspends conv force w Hneed Hfresh)
    as (w1 & k & Hget & Hslot & _ & _ & Hk).
  exists w1, k. split_and!; [done..|].
  intros res wh Hwh. unfold settingsHandler.
  assert (IVars.has token (webSessions wh) = true) as Hhas.
  { apply bool_decide_eq_true. rewrite Hwh. by eexists. }
  rewrite Htoken, Hpost, Hhas. simpl.
  eexists. split; [reflexivity|]. intros res' wp Hwp. simpl.
  rewrite bool_decide_eq_true_2 by done.
  eexists. split; [reflexivity|]. split.
  - unfold session_put, IVars.put. fold token. by rewrite Hwp.
  - intros w'. by rewrite Hk.
Qed.

(** X17. [getUser] returns the stored settings of the conversation's user
    and leaves everything as it is when the user has a record; otherwise it
    adds an empty record and saves.  Either way the user has the returned
    settings afterwards, a second call changes nothing more, and the
    records of other users are untouched. *)
Theorem getUser_creates_once (conv : Conversation) (w : World) :
  users (getUser conv w).2 !! user conv = Some (getUser conv w).1 ∧
  getUser conv (getUser conv w).2 = getUser conv w ∧
  (∀ u, u ≠ user conv → users (getUser conv w).2 !! u = users w !! u) ∧
  match users w !! user conv with
  | Some settings => getUser conv w = (settings, w)
  | None =>
      (getUser conv w).1 = no_settings ∧
      saved (getUser conv w).2 = users (getUser conv w).2
  end.
Proof.
  unfold getUser. destruct (users w !! user conv) as [settings|] eqn:Hu.
  - simpl. by rewrite Hu.
  - simpl. rewrite lookup_insert_eq. split_and!; try done.
    intros u Hne. by rewrite lookup_insert_ne.
Qed.

(** X18. [handle_setup_calendar] asks for the form even when the user has
    a service configured.  The settings that arrive replace the user's
    record and are saved whatever they are; then the bot says
    ['ok, all set!'], unless the settings name the service ['caldav']
    without its record, in which case the handler throws after saving. *)
Theorem setup_calendar_always_asks (conv : Conversation) (w : World) :
  let token := randomString (randomCalls w) in
  webSessions w !! token = None →
  ∃ w1 k,
    handle_setup_calendar conv w = Await (SessionGet token) w1 k ∧
    sessionCalls w1 = sessionCalls w ++ [CallGet token] ∧
    last (sent w1) = Some (user conv, settings_url token) ∧
    ∀ settings w',
      let w'' := saveDatabase (update_user conv settings w') in
      users w'' !! user conv = Some settings ∧ saved w'' = users w'' ∧
      k settings w'
      = if bool_decide (service settings = Some "caldav" ∧
                        caldav settings = None)
        then Throw w'' "TypeError"
        else Ret (send conv "ok, all set!" w'') tt.
Proof.
  intros token Hfresh. unfold handle_setup_calendar.
  destruct (getCalendar_suspends conv true w eq_refl Hfresh)
    as (w1 & k & -> & _ & Hcalls & Hsent & Hk).
  simpl. eexists _, _. split; [reflexivity|]. split_and!; [done..|].
  intros settings w'. cbv zeta. split; [apply update_and_save|].
  split; [apply update_and_save|]. rewrite Hk.
  unfold calendar_of.
  destruct (decide (service settings = Some "caldav" ∧ caldav settings = None))
    as [[Hs Hc]|Hn].
  - rewrite (bool_decide_eq_true_2 (_ ∧ _)) by done.
    by rewrite Hc, bool_decide_eq_true_2.
  - rewrite (bool_decide_eq_false_2 (_ ∧ _)) by done.
    case_bool_decide as Hs.
    + destruct (caldav settings) eqn:Hc; [done|]. by destruct Hn.
    + by case_bool_decide.
Qed.

(** X19. For a user whose record names the service ['caldav'] and carries
    its record, [handle_show_calendar] mints no token and sends no URL: it
    says ['let's get your calendar!'], asks that calendar for its events and
    then sends one message, the events one per line as start, colon,
    title; for no events the message is empty. *)
Theorem show_calendar_of_configured_user (conv : Conversation) (w : World)
    (settings : Settings) (cd : CalDAVSettings) :
  users w !! user conv = Some settings →
  service settings = Some "caldav" →
  caldav settings = Some cd →
  ∃ k,
    handle_show_calendar conv w
    = Await (GetEvents (CalDAVCalendar (url cd) (username cd) (password cd)))
            (send conv "let's get your calendar!" w) k ∧
    (∀ events w',
       k events w'
       = Ret (send conv
                (join newline ((λ ev, ev.1 +:+ ": " +:+ ev.2) <$> events)) w')
             tt) ∧
    ∀ w', k [] w' = Ret (send conv "" w') tt.
Proof.
  intros Hu Hs Hc. unfold handle_show_calendar, getCalendar, getUser. simpl.
  rewrite Hu. unfold configured. rewrite Hs. simpl.
  unfold calendar_of. rewrite Hs, Hc. simpl.
  eexists. split; [reflexivity|]. split; done.
Qed.
End handoff.

Lemma settings_form_resumes_getCalendar_witness :
  let req := MkRequest (Some "POST") (Some "/settings/token-0") in
  let params : Params := {["token" := Some "token-0"]} in
  ∃ w1 k k3 w2,
    @getCalendar test_collaborators test_conv false empty_world
      = Await (SessionGet "token-0") w1 k ∧
    @settingsHandler test_collaborators req fresh_response params w1
      = Await (FormData req) (fresh_response, w1) k3 ∧
    k3 test_form (fresh_response, w1)
      = Ret (MkResponse 200 ["got it; thanks!"] true, w2) tt ∧
    k (form_settings test_form) w2
      = Ret (saveDatabase (update_user test_conv (form_settings test_form) w2))
            (Some (CalDAVCalendar (Some "https://dav.example") (Some "u")
                                  (Some "p"))).
Proof.
  intros req params.
  destruct (@settings_form_resumes_getCalendar test_collaborators test_conv
              false empty_world req params test_form
              eq_refl eq_refl eq_refl eq_refl eq_refl)
    as (w1 & k & Hget & Hslot & Hform).
  destruct (Hform fresh_response w1 Hslot) as (k3 & Hk3 & Hput).
  destruct (Hput fresh_response w1 Hslot) as (w2 & Hw2 & _ & Hk).
  exists w1, k, k3, w2. split; [exact Hget|]. split; [exact Hk3|].
  split; [exact Hw2|]. apply Hk.
Defined.

Lemma setup_calendar_always_asks_witness :
  let stored :=
    MkSettings (Some "office") None (Some "office-token") in
  let w := set_users {["U1" := stored]} empty_world in
  webSessions w !! "token-0" = None ∧
  ∃ w1 k,
    @handle_setup_calendar test_collaborators test_conv w
    = Await (SessionGet "token-0") w1 k ∧
    last (sent w1)
      = Some ("U1", "please fill out the form at " +:+
                    "http://localhost:5000/settings/token-0").
Proof.
  intros stored w. split; [reflexivity|].
  destruct (@setup_calendar_always_asks test_collaborators test_conv w eq_refl)
    as (w1 & k & Hk & _ & Hsent & _).
  exists w1, k. split; [exact Hk|exact Hsent].
Defined.

Lemma show_calendar_of_configured_user_witness :
  let cd := MkCalDAV (Some "https://dav.example") (Some "u") (Some "p") in
  let stored := MkSettings (Some "caldav") (Some cd) None in
  let w := set_users {["U1" := stored]} empty_world in
  users w !! "U1" = Some stored ∧
  ∃ k,
    @handle_show_calendar test_collaborators test_conv w
    = Await (GetEvents (CalDAVCalendar (Some "https://dav.example") (Some "u")
                                       (Some "p")))
            (send test_conv "let's get your calendar!" w) k ∧
    sessionCalls (send test_conv "let's get your calendar!" w) = [].
Proof.
  intros cd stored w. split; [reflexivity|].
  destruct (@show_calendar_of_configured_user test_collaborators test_conv w
              stored cd eq_refl eq_refl eq_refl) as (k & Hk & _).
  exists k. split; [exact Hk|reflexivity].
Defined.
End OpalbotMore.

(** ** The Facebook Messenger backend *)

Module FbbotProps.
Import Fbbot.

Section bot.
Context {W : Type}.
Implicit Types (bot : FacebookBot W) (msgs : list (string * Message)).

Lemma on_message_waiting bot sender message w :
  spool bot !! sender = Some w →
  on_message sender message bot
  = (MkFacebookBot (convHandler bot) (delete sender (spool bot)) (outbox bot),
     Resumes w (text message)).
Proof. intros Hw. unfold on_message, Spool.dispatch. by rewrite Hw. Qed.

Lemma on_message_idle bot sender message :
  spool bot !! sender = None →
  on_message sender message bot
  = (bot, unawaited (convHandler bot) (sender, message)).
Proof.
  intros Hw. unfold on_message, Spool.dispatch, unawaited. rewrite Hw.
  destruct bot as [[] s o]; done.
Qed.

Lemma on_message_recv_other bot sender message user w :
  sender ≠ user →
  on_message sender message (recv user w bot)
  = (recv user w (on_message sender message bot).1,
     (on_message sender message bot).2).
Proof.
  intros Hne. destruct (spool bot !! sender) as [w'|] eqn:Hs.
  - rewrite (on_message_waiting bot _ _ w') by done.
    rewrite (on_message_waiting (recv user w bot) _ _ w').
    + unfold recv, Spool.wait. simpl. by rewrite delete_insert_ne.
    + unfold recv, Spool.wait. simpl. by rewrite lookup_insert_ne.
  - rewrite (on_message_idle bot) by done.
    rewrite (on_message_idle (recv user w bot)); [done|].
    unfold recv, Spool.wait. simpl. by rewrite lookup_insert_ne.
Qed.

Lemma on_messages_app msgs1 msgs2 bot :
  on_messages (msgs1 ++ msgs2) bot
  = ((on_messages msgs2 (on_messages msgs1 bot).1).1,
     (on_messages msgs1 bot).2 ++ (on_messages msgs2 (on_messages msgs1 bot).1).2).
Proof.
  revert bot. induction msgs1 as [|[sender message] msgs1 IH]; intros bot.
  - simpl. by destruct (on_messages msgs2 bot).
  - simpl. destruct (on_message sender message bot) as [bot1 fate].
    rewrite IH. destruct (on_messages msgs1 bot1) as [bot2 fates]. simpl.
    by destruct (on_messages msgs2 bot2).
Qed.

Lemma on_messages_recv_others msgs bot user w :
  Forall (λ m, m.1 ≠ user) msgs →
  on_messages msgs (recv user w bot)
  = (recv user w (on_messages msgs bot).1, (on_messages msgs bot).2).
Proof.
  intros Hothers. revert bot.
  induction Hothers as [|[sender message] msgs Hne _ IH]; intros bot; [done|].
  simpl. rewrite on_message_recv_other by done.
  destruct (on_message sender message bot) as [bot1 fate]. simpl.
  rewrite IH. by destruct (on_messages msgs bot1).
Qed.

(** X20. A [recv] of a user is resumed by that user's next message and by
    no other: the messages of other users that come in before it have the
    same fate as without the [recv], and the user's message then makes the
    [recv] return its text and starts no conversation. *)
Theorem recv_gets_next_message_of_its_user msgs bot user w message :
  Forall (λ m, m.1 ≠ user) msgs →
  (on_messages (msgs ++ [(user, message)]) (recv user w bot)).2
  = (on_messages msgs bot).2 ++ [Resumes w (text message)].
Proof.
  intros Hothers. rewrite on_messages_app, on_messages_recv_others by done.
  simpl. rewrite (on_message_waiting _ _ _ w); [done|].
  unfold recv, Spool.wait. simpl. by rewrite lookup_insert_eq.
Qed.

Lemma on_messages_idle msgs bot user :
  Forall (λ m, m.1 = user) msgs → spool bot !! user = None →
  on_messages msgs bot = (bot, unawaited (convHandler bot) <$> msgs).
Proof.
  intros Hsame Hidle.
  induction Hsame as [|[sender message] msgs Hs _ IH]; [done|].
  simpl in Hs. subst sender. simpl.
  rewrite on_message_idle by done. by rewrite IH.
Qed.

(** X21. A suspended [recv] takes one message.  Of the messages of one
    user that come in without a [recv] in between, only the first can
    resume a [recv]; each later one starts a new conversation if a handler
    is registered, and is dropped if none is, while the conversation begun
    or resumed by an earlier one may still be running. *)
Theorem later_messages_start_conversations msgs bot user message :
  Forall (λ m, m.1 = user) msgs →
  (on_messages ((user, message) :: msgs) bot).2
  = (on_message user message bot).2
      :: (unawaited (convHandler bot) <$> msgs).
Proof.
  intros Hsame. simpl.
  destruct (on_message user message bot) as [bot1 fate] eqn:Hm.
  assert (spool bot1 !! user = None ∧ convHandler bot1 = convHandler bot)
    as [Hidle Hh].
  { destruct (spool bot !! user) as [w|] eqn:Hs.
    - rewrite (on_message_waiting _ _ _ w) in Hm by done.
      injection Hm as <- _. simpl. by rewrite lookup_delete_eq.
    - rewrite on_message_idle in Hm by done. by injection Hm as <- _. }
  rewrite (on_messages_idle msgs bot1 user) by done. simpl. by rewrite Hh.
Qed.
End bot.

Lemma recv_gets_next_message_of_its_user_witness :
  let bot : FacebookBot nat := MkFacebookBot true ∅ [] in
  let hi := MkMessage "m1" 1 "hi" in
  let yes := MkMessage "m2" 2 "yes" in
  Forall (λ m : string * Message, m.1 ≠ "alice") [("bob", hi)] ∧
  (on_messages [("bob", hi); ("alice", yes)] (recv "alice" 7 bot)).2
  = [Starts "hi" "bob"; Resumes 7 "yes"].
Proof.
  intros bot hi yes.
  assert (Forall (λ m : string * Message, m.1 ≠ "alice") [("bob", hi)])
    as Hothers by (repeat constructor; discriminate).
  split; [exact Hothers|].
  apply (recv_gets_next_message_of_its_user [("bob", hi)] bot "alice" 7 yes
           Hothers).
Defined.

Lemma later_messages_start_conversations_witness :
  let bot : FacebookBot nat := recv "alice" 7 (MkFacebookBot true ∅ []) in
  let yes := MkMessage "m2" 2 "yes" in
  let more := MkMessage "m3" 3 "and more" in
  Forall (λ m : string * Message, m.1 = "alice") [("alice", more)] ∧
  (on_messages [("alice", yes); ("alice", more)] bot).2
  = [Resumes 7 "yes"; Starts "and more" "alice"].
Proof.
  intros bot yes more.
  assert (Forall (λ m : string * Message, m.1 = "alice") [("alice", more)])
    as Hsame by (repeat constructor).
  split; [exact Hsame|].
  apply (later_messages_start_conversations [("alice", more)] bot "alice" yes
           Hsame).
Defined.
End FbbotProps.

(** ** The entry point *)

Module MainProps.
Import Libweb Main.

Implicit Types (env : gmap string string) (opts : Options) (a : Action).

#[local] Set Warnings "-clear-no-such-hyp".

(** Membership in one step of [main], by cases on what the step tests. *)
Ltac step_cases :=
  unfold office_step, slack_step, fb_step, web_step, term_step;
  repeat case_match;
  rewrite ?elem_of_cons, ?elem_of_nil; naive_solver.

Lemma office_step_elem env a :
  a ∈ office_step env ↔
  ∃ id secret, getenv env "OFFICE_CLIENT_ID" = Some id ∧
    getenv env "OFFICE_CLIENT_SECRET" = Some secret ∧ a = AddOffice id secret.
Proof. step_cases. Qed.

Lemma slack_step_elem env opts a :
  a ∈ slack_step env opts ↔
  opt_slack opts = true ∧
  match getenv env "SLACK_BOT_TOKEN" with
  | Some token => a = ConnectSlack token STATUS_CHAN
  | None => a = ConsoleError "missing SLACK_BOT_TOKEN"
  end.
Proof. step_cases. Qed.

Lemma fb_step_elem env opts a :
  a ∈ fb_step env opts ↔
  opt_fb opts = true ∧
  match getenv env "FB_PAGE_TOKEN", getenv env "FB_VERIFY_TOKEN" with
  | Some page, Some verify => a = AddFacebook page verify
  | _, _ => a = ConsoleError "missing FB_PAGE_TOKEN or FB_VERIFY_TOKEN"
  end.
Proof. step_cases. Qed.

Lemma web_step_elem opts a :
  a ∈ web_step opts ↔ opt_web opts = true ∧ a = AddWeb.
Proof. step_cases. Qed.

Lemma term_step_elem opts a :
  a ∈ term_step opts ↔ opt_term opts = true ∧ a = RunTerminal.
Proof. step_cases. Qed.

Lemma main_elem env opts a wit_token :
  getenv env "WIT_ACCESS_TOKEN" = Some wit_token →
  a ∈ main env opts ↔
  a = OpenDB DB_NAME ∨
  a = NewOpalBot wit_token
        (default "http://localhost:5000" (getenv env "WEB_URL")) ∨
  a ∈ office_step env ∨ a ∈ slack_step env opts ∨ a ∈ fb_step env opts ∨
  a ∈ web_step opts ∨ a = RunWeb 5000 ∨ a ∈ term_step opts.
Proof.
  intros Hwit. unfold main. rewrite Hwit.
  rewrite ?elem_of_cons, ?elem_of_app, ?elem_of_cons, ?elem_of_nil.
  naive_solver.
Qed.

(** X22. Without a non-empty [WIT_ACCESS_TOKEN], [main] logs one error and
    starts nothing.  With one, it starts the web server exactly once, on
    port 5000, after the database is opened and every integration has been
    added or found to lack its credentials, and the terminal, if asked for,
    only after the web server. *)
Theorem main_starts_web_server_last env opts :
  match getenv env "WIT_ACCESS_TOKEN" with
  | None => main env opts = [ConsoleError "missing WIT_TOKEN"]
  | Some wit_token =>
      ∃ setup,
        main env opts
        = OpenDB DB_NAME :: (setup ++ (RunWeb 5000 :: term_step opts)) ∧
        Forall (λ a, ∀ port, a ≠ RunWeb port) setup ∧
        (RunTerminal ∉ setup) ∧
        ∀ a, a ∈ term_step opts → a = RunTerminal
  end.
Proof.
  destruct (getenv env "WIT_ACCESS_TOKEN") as [wit_token|] eqn:Hwit.
  - eexists (NewOpalBot _ _ :: office_step env ++ slack_step env opts
               ++ fb_step env opts ++ web_step opts).
    split_and!.
    + unfold main. rewrite Hwit. simpl. by rewrite <-!(assoc_L (++)).
    + apply Forall_forall. intros a Ha port ->. revert Ha.
      rewrite elem_of_cons, !elem_of_app, office_step_elem, slack_step_elem,
        fb_step_elem, web_step_elem.
      repeat case_match; naive_solver.
    + rewrite elem_of_cons, !elem_of_app, office_step_elem, slack_step_elem,
        fb_step_elem, web_step_elem.
      repeat case_match; naive_solver.
    + intros a. rewrite term_step_elem. naive_solver.
  - unfold main. by rewrite Hwit.
Qed.

(** X23. [main] adds an integration only with its credentials: the
    Facebook route when [--fb] is given and both Facebook tokens are set
    and not empty, the Slack connection (to the status channel) when
    [--slack] is given and the Slack token is, the Office client when both
    Office variables are, whatever the flags; and never without the NLP
    token. *)
Theorem main_integrations_need_credentials env opts :
  (∀ page verify,
     AddFacebook page verify ∈ main env opts ↔
     is_Some (getenv env "WIT_ACCESS_TOKEN") ∧ opt_fb opts = true ∧
     getenv env "FB_PAGE_TOKEN" = Some page ∧
     getenv env "FB_VERIFY_TOKEN" = Some verify) ∧
  (∀ token chan,
     ConnectSlack token chan ∈ main env opts ↔
     is_Some (getenv env "WIT_ACCESS_TOKEN") ∧ opt_slack opts = true ∧
     getenv env "SLACK_BOT_TOKEN" = Some token ∧ chan = STATUS_CHAN) ∧
  (∀ id secret,
     AddOffice id secret ∈ main env opts ↔
     is_Some (getenv env "WIT_ACCESS_TOKEN") ∧
     getenv env "OFFICE_CLIENT_ID" = Some id ∧
     getenv env "OFFICE_CLIENT_SECRET" = Some secret).
Proof.
  destruct (getenv env "WIT_ACCESS_TOKEN") as [wit_token|] eqn:Hwit.
  - split_and!; intros ??;
      rewrite (main_elem _ _ _ _ Hwit), office_step_elem, slack_step_elem,
        fb_step_elem, web_step_elem, term_step_elem;
      repeat case_match; naive_solver.
  - unfold main. rewrite Hwit.
    split_and!; intros ??; rewrite elem_of_cons, elem_of_nil;
      (split; [naive_solver|intros [[? [=]] _]]).
Qed.

(** A variable that is set but empty counts as missing: [getenv] is what
    the truthiness tests of [main] see. *)
Lemma getenv_empty env name : env !! name = Some "" → getenv env name = None.
Proof. unfold getenv. by intros ->. Qed.
End MainProps.

(** ** The first Slack bot *)

Module Slackbot0Props.
Import Libweb Opalbot Slackbot0.

Section bot.
Context `{Collaborators}.

(** X24. The first bot answers direct messages only: a message in any
    other channel is left alone, without even asking the NLP service.  To a
    direct message it sends at most one reply, always into the channel the
    message came from: the greeting when the NLP result has a greeting
    entity, whatever the intent, else the intent if there is a non-empty
    one, else nothing. *)
Theorem first_bot_replies_once_in_ims (ims : gset string) (message : Message)
    (sent : list (string * string)) :
  if bool_decide (channel message ∈ ims) then
    ∃ k,
      on_message ims message sent = Await (WitMessage (text message)) sent k ∧
      ∀ res sent', ∃ reply,
        k res sent' = Ret (sent' ++ reply) tt ∧
        length reply ≤ 1 ∧
        Forall (λ m, m.2 = channel message) reply ∧
        if getEntity res "greeting"
        then reply = [("hi!", channel message)]
        else (reply = [] ↔
              from_option truthy false (entityValue res "intent") = false)
  else on_message ims message sent = Ret sent tt.
Proof.
  unfold on_message. case_bool_decide; [|done].
  eexists. split; [reflexivity|]. intros res sent'. simpl.
  destruct (getEntity res "greeting").
  - exists [("hi!", channel message)]. split_and!; try done.
    by repeat constructor.
  - destruct (entityValue res "intent") as [intent|]; simpl.
    + destruct (truthy intent).
      * eexists [_]. split_and!; [done|done|by repeat constructor|].
        split; intros [=].
      * exists []. rewrite (right_id_L [] (++)). split_and!; try done.
        simpl. lia.
    + exists []. rewrite (right_id_L [] (++)). split_and!; try done.
      simpl. lia.
Qed.
End bot.
End Slackbot0Props.

(** ** The CalDAV calendar source *)

Module CaldavProps.
Import Libweb LibwebProps Caldav.

(** *** Base64 *)

Lemma undigit64_digit64 (b0 b1 b2 b3 b4 b5 : bool) :
  undigit64 (digit64 (Ascii b0 b1 b2 b3 b4 b5 false false))
  = Some (Ascii b0 b1 b2 b3 b4 b5 false false).
Proof. destruct b0, b1, b2, b3, b4, b5; reflexivity. Qed.

Lemma digit64_not_pad (b0 b1 b2 b3 b4 b5 : bool) :
  Ascii.eqb (digit64 (Ascii b0 b1 b2 b3 b4 b5 false false)) pad = false.
Proof. destruct b0, b1, b2, b3, b4, b5; reflexivity. Qed.

Lemma list_ind3 {A : Type} (P : list A → Prop) :
  P [] → (∀ a, P [a]) → (∀ a b, P [a; b]) →
  (∀ a b c l, P l → P (a :: b :: c :: l)) →
  ∀ l, P l.
Proof.
  intros H0 H1 H2 H3. fix IH 1.
  intros [|a [|b [|c l]]]; [done..|]. apply H3, IH.
Qed.

Ltac reduce64 :=
  cbn -[digit64 undigit64 Ascii.eqb pad base64_decode].

Lemma base64_decode_encode (bytes : list ascii) :
  base64_decode (base64 bytes) = Some bytes.
Proof.
  induction bytes as [|a|a b|a b c rest IH] using list_ind3.
  - done.
  - destruct a as [a0 a1 a2 a3 a4 a5 a6 a7]. unfold base64, zero.
    cbn -[digit64 undigit64 Ascii.eqb pad].
    rewrite (undigit64_digit64 a2 a3 a4 a5 a6 a7). reduce64.
    rewrite (undigit64_digit64 false false false false a0 a1). reduce64.
    by rewrite !Ascii.eqb_refl.
  - destruct a as [a0 a1 a2 a3 a4 a5 a6 a7], b as [b0 b1 b2 b3 b4 b5 b6 b7].
    unfold base64, zero. cbn -[digit64 undigit64 Ascii.eqb pad].
    rewrite (undigit64_digit64 a2 a3 a4 a5 a6 a7). reduce64.
    rewrite (undigit64_digit64 b4 b5 b6 b7 a0 a1). reduce64.
    rewrite Ascii.eqb_refl, digit64_not_pad.
    by rewrite (undigit64_digit64 false false b0 b1 b2 b3).
  - destruct a as [a0 a1 a2 a3 a4 a5 a6 a7], b as [b0 b1 b2 b3 b4 b5 b6 b7],
      c as [c0 c1 c2 c3 c4 c5 c6 c7].
    cbn -[digit64 undigit64 Ascii.eqb pad base64_decode].
    cbn [base64_decode].
    rewrite (undigit64_digit64 a2 a3 a4 a5 a6 a7). reduce64.
    rewrite (undigit64_digit64 b4 b5 b6 b7 a0 a1). reduce64.
    rewrite digit64_not_pad.
    rewrite (undigit64_digit64 c6 c7 b0 b1 b2 b3). reduce64.
    rewrite (undigit64_digit64 c0 c1 c2 c3 c4 c5). reduce64.
    by rewrite IH.
Qed.

Lemma utf8_decode_encode (s : string) : utf8_decode (utf8 s) = Some s.
Proof.
  induction s as [|c s IH]; [done|].
  destruct c as [b0 b1 b2 b3 b4 b5 b6 b7]. destruct b7; simpl; by rewrite IH.
Qed.

Lemma split_colon_app (username rest : string) :
  occurs ":" username = false →
  split_colon (username +:+ ":" +:+ rest) = Some (username, rest).
Proof.
  intros Hu. induction username as [|c username IH]; [done|].
  cbn [occurs] in Hu. apply orb_false_iff in Hu as [Hc Hu].
  rewrite app_cons. cbn [split_colon]. rewrite Ascii.eqb_sym, Hc.
  by rewrite IH.
Qed.

Lemma credentials_of_text (text : string) :
  credentials ("Basic " +:+ base64encode text) = split_colon text.
Proof.
  unfold credentials, base64encode.
  change (strip_prefix "Basic " ("Basic " +:+ base64 (utf8 text)))
    with (Some (base64 (utf8 text))).
  cbn [mbind option_bind]. rewrite base64_decode_encode.
  cbn [mbind option_bind]. by rewrite utf8_decode_encode.
Qed.

(** X25. The header of [basicauth] can be read back: for a username
    without a colon, taking off ['Basic '], decoding the base64 and the
    UTF-8 and cutting at the first colon gives the username and the
    password.  When a colon follows in the username, the header is the one
    of the shorter username, with the rest counted to the password. *)
Theorem basicauth_round_trip (username password : string) :
  occurs ":" username = false →
  credentials (basicauth username password) = Some (username, password) ∧
  ∀ more,
    basicauth (username +:+ ":" +:+ more) password
      = basicauth username (more +:+ ":" +:+ password) ∧
    credentials (basicauth (username +:+ ":" +:+ more) password)
      = Some (username, more +:+ ":" +:+ password).
Proof.
  intros Hu. unfold basicauth. split.
  - rewrite credentials_of_text. by apply split_colon_app.
  - intros more. rewrite !app_assoc. split; [done|].
    rewrite credentials_of_text. by apply split_colon_app.
Qed.

Lemma basicauth_round_trip_witness :
  occurs ":" "Aladdin" = false ∧
  basicauth "Aladdin" "open sesame" = "Basic QWxhZGRpbjpvcGVuIHNlc2FtZQ==" ∧
  credentials (basicauth "Aladdin" "open sesame")
    = Some ("Aladdin", "open sesame").
Proof.
  split; [reflexivity|]. split; [reflexivity|].
  exact (proj1 (basicauth_round_trip "Aladdin" "open sesame" eq_refl)).
Defined.

(** *** Events *)

Section events.
Context {M : Type} (moment : string → M).

Lemma parse_responses_inl (docs : list (list ICSEvent))
    (events : list ICSEvent) :
  parse_responses docs = inl events ↔
  Forall2 (λ doc ev, head doc = Some ev) docs events.
Proof.
  revert events. induction docs as [|doc docs IH]; intros events; simpl.
  - split; [intros [= <-]; constructor|by intros ->%Forall2_nil_inv_l].
  - destruct doc as [|event doc]; simpl.
    + split; [done|]. intros (ev & evs & [=] & _)%Forall2_cons_inv_l.
    + destruct (parse_responses docs) as [evs|err].
      * split.
        -- intros [= <-]. constructor; [done|]. by apply IH.
        -- intros (ev & evs' & [= <-] & Hevs%IH & ->)%Forall2_cons_inv_l.
           by injection Hevs as ->.
      * split; [done|].
        intros (ev & evs' & _ & Hevs%IH & _)%Forall2_cons_inv_l. done.
Qed.

(** X26. [getEvents] returns events exactly when the server answered
    [ok], the multistatus has a response, and every response document has
    an event; it then returns one event for each response, in order, made
    from the first event of the document, and ignores further events in a
    document.  A failed request is reported before anything is parsed; an
    answer without a response ends in a [TypeError]; a document without an
    event in the exception of [parseEvent]. *)
Theorem getEvents_one_event_per_response (ok : bool)
    (docs : list (list ICSEvent)) :
  (∀ events,
     getEvents moment ok docs = inl events ↔
     ok = true ∧ docs ≠ [] ∧
     Forall2 (λ doc event, eventFromICS moment <$> head doc = Some event)
             docs events) ∧
  (ok = false →
   getEvents moment ok docs = inr "error communicating with CalDAV server") ∧
  (ok = true → docs = [] → getEvents moment ok docs = inr "TypeError") ∧
  (ok = true → Exists (λ doc, doc = []) docs →
   getEvents moment ok docs = inr "no event in calendar").
Proof.
  assert (∀ d ds, getEvents moment true (d :: ds)
                  = match parse_responses (d :: ds) with
                    | inl events => inl (eventFromICS moment <$> events)
                    | inr err => inr err
                    end) as Hcons by done.
  split_and!.
  - intros events. destruct ok; [|split; [done|by intros [? _]]].
    destruct docs as [|d ds]; [split; [done|by intros (_ & ? & _)]|].
    assert (d :: ds ≠ []) as Hne by done. rewrite Hcons. clear Hcons.
    remember (d :: ds) as docs eqn:Hdocs. clear d ds Hdocs.
    destruct (parse_responses docs) as [evs|err] eqn:Hp.
    + apply parse_responses_inl in Hp. split.
      * intros [= <-]. split; [done|]. split; [done|].
        apply Forall2_fmap_r. eapply Forall2_impl; [done|].
        intros doc ev ->. done.
      * intros (_ & _ & Hev). f_equal. clear Hne.
        revert events Hev. induction Hp as [|doc ev docs evs Hd _ IH];
          intros events Hev.
        -- by apply Forall2_nil_inv_l in Hev as ->.
        -- apply Forall2_cons_inv_l in Hev as (e & es & He & Hes & ->).
           rewrite Hd in He. injection He as <-. simpl. f_equal. by apply IH.
    + split; [done|]. intros (_ & _ & Hev).
      assert (∃ evs, parse_responses docs = inl evs) as [evs Hevs];
        [|congruence].
      clear Hp Hne. revert events Hev.
      induction docs as [|doc docs IH]; intros events Hev; [by eexists|].
      apply Forall2_cons_inv_l in Hev as (e & es & He & Hes & ->).
      destruct (IH _ Hes) as [evs Hevs]. destruct doc as [|ev doc]; [done|].
      simpl. rewrite Hevs. by eexists.
  - by intros ->.
  - by intros -> ->.
  - intros -> Hempty. destruct docs as [|d ds]; [by inversion Hempty|].
    rewrite Hcons.
    assert (parse_responses (d :: ds) = inr "no event in calendar") as ->;
      [|done].
    clear Hcons. induction Hempty as [doc docs ->|doc docs _ IH]; [done|].
    simpl. destruct doc; [done|]. simpl. by rewrite IH.
Qed.
End events.

Lemma getEvents_one_event_per_response_witness :
  let standup :=
    MkICSEvent "standup" "2017-06-01T10:00:00" "2017-06-01T10:15:00" in
  let lunch := MkICSEvent "lunch" "2017-06-01T12:00:00" "2017-06-01T13:00:00" in
  let more := MkICSEvent "more" "2017-06-02T12:00:00" "2017-06-02T13:00:00" in
  getEvents id false [[standup]]
    = inr "error communicating with CalDAV server" ∧
  getEvents id true [] = inr "TypeError" ∧
  getEvents id true [[standup]; []; [lunch]] = inr "no event in calendar" ∧
  getEvents id true [[standup; more]; [lunch]]
    = inl [MkEvent "standup" "2017-06-01T10:00:00" "2017-06-01T10:15:00";
           MkEvent "lunch" "2017-06-01T12:00:00" "2017-06-01T13:00:00"].
Proof.
  intros standup lunch more. split_and!.
  - apply (getEvents_one_event_per_response id false). reflexivity.
  - apply (getEvents_one_event_per_response id true); reflexivity.
  - apply (getEvents_one_event_per_response id true); [reflexivity|].
    apply Exists_cons_tl, Exists_cons_hd. reflexivity.
  - apply (getEvents_one_event_per_response id true).
    split; [reflexivity|]. split; [discriminate|]. repeat constructor.
Defined.
End CaldavProps.
